(** * Shallow embedding of the ZYNQ AIE shim-DMA and profiling layer (zynqaie::Aie)

    The model follows the hardware build of [aie.cpp] (the [#ifndef __AIESIM__]
    branches).  The C++ object is an explicit state [Aie]; every member
    function is a computation in a state/exception monad [M] whose state
    survives an exception, as in C++.  Calls into the vendor hardware-control
    library (aie-rt), the kernel ([ioctl], [mmap]) and the buffer collaborator
    are recorded in a trace of events; their answers come from an oracle [Hw]
    carried in the state.  The per-tile resource pool ([Resources::AIE]) is
    code of the repository that is not part of the sources given here: it is
    modelled from the spec. *)

From stdpp Require Import base list strings pretty gmap.
From Stdlib Require Import ZArith Ascii.

Open Scope string_scope.
Open Scope Z_scope.

(** ** Constants of the headers *)

Definition EINVAL : Z := 22.
Definition EAGAIN : Z := 11.

(** [XAIEDMA_SHIM_TXFER_LEN32_MASK] of the aie-rt headers: a shim DMA length
    must be a multiple of 32 bits, i.e. its two low bits are clear. *)
Definition XAIEDMA_SHIM_TXFER_LEN32_MASK : Z := 3.

(** [XRT_NULL_BO_EXPORT] of xrt.h on Linux. *)
Definition XRT_NULL_BO_EXPORT : Z := -1.

(** [IO_STREAM_RUNNING_EVENT_COUNT] of [xrtProfilingOption]. *)
Definition IO_STREAM_RUNNING_EVENT_COUNT : Z := 3.

(** [CONVERT_LCHANL_TO_PCHANL] of aie.h: logical channels 2 and 3 are the
    physical channels 0 and 1 of the other direction. *)
Definition CONVERT_LCHANL_TO_PCHANL (l_ch : Z) : Z :=
  if 1 <? l_ch then l_ch - 2 else l_ch.

(** [(size_t)(int)]: the signed handle compared with a [size_t] is converted
    to a 64-bit unsigned value. *)
Definition to_size_t (x : Z) : Z := x mod 2 ^ 64.

(** [int handleId = eventRecords.size();]: narrowing to a 32-bit [int]. *)
Definition to_int (x : Z) : Z :=
  let u := x mod 2 ^ 32 in if u <? 2 ^ 31 then u else u - 2 ^ 32.

(** ** Data model *)

Inductive xclBOSyncDirection :=
| XCL_BO_SYNC_BO_TO_DEVICE
| XCL_BO_SYNC_BO_FROM_DEVICE
| XCL_BO_SYNC_BO_GMIO_TO_AIE
| XCL_BO_SYNC_BO_AIE_TO_GMIO.

Inductive XAie_DmaDirection := DMA_MM2S | DMA_S2MM.

Inductive XAie_StrmPortIntf := XAIE_STRMSW_SLAVE | XAIE_STRMSW_MASTER.

Record XAie_LocType := TileLoc { Col : Z; Row : Z }.

(** [gmio_type] of the AIE metadata: [type] 0 is GM->AIE, 1 is AIE->GM. *)
Record gmio_type := {
  gmio_name : string;
  gmio_type_ : Z;
  gmio_shim_col : Z;
  gmio_channel_number : Z;
  gmio_stream_id : Z;
  gmio_burst_len : Z
}.

Record plio_type := {
  plio_name : string;
  plio_logical_name : string;
  plio_shim_col : Z;
  plio_stream_id : Z;
  plio_is_master : bool
}.

(** [BD] of aie.h: a buffer descriptor slot and its host-memory binding. *)
Record BD := {
  bd_num : Z;
  vaddr : Z;
  bd_size : Z;
  buf_fd : Z
}.

Definition bd_empty (n : Z) : BD :=
  {| bd_num := n; vaddr := 0; bd_size := 0; buf_fd := -1 |}.

Definition bd_set_buf_fd (b : BD) (fd : Z) : BD :=
  {| bd_num := bd_num b; vaddr := vaddr b; bd_size := bd_size b; buf_fd := fd |}.
Definition bd_set_size (b : BD) (s : Z) : BD :=
  {| bd_num := bd_num b; vaddr := vaddr b; bd_size := s; buf_fd := buf_fd b |}.
Definition bd_set_vaddr (b : BD) (a : Z) : BD :=
  {| bd_num := bd_num b; vaddr := a; bd_size := bd_size b; buf_fd := buf_fd b |}.

(** A DMA channel: two [std::queue<BD>]; the front of a queue is the head
    of the list and [push] appends at the end. *)
Record DMAChannel := {
  idle_bds : list BD;
  pend_bds : list BD
}.

Record ShimDMA := {
  dma_chan : list DMAChannel;
  maxqSize : Z;
  configured : bool
}.

(** [Resources::AcquiredResource]. *)
Inductive ResModule := core_module | memory_module | pl_module.
Inductive ResKind :=
| performance_counter
| user_event
| trace_control
| stream_switch_event_port
| broadcast_channel.

Record AcquiredResource := {
  res_loc : XAie_LocType;
  res_module : ResModule;
  res_resource : ResKind;
  res_id : Z
}.

Record EventRecord := {
  ev_option : Z;
  acquiredResources : list AcquiredResource
}.

(** A buffer handle, seen through the answers of the buffer collaborator:
    [xrtBOExport], [xrtBOSize] and [xrtBOAddress]. *)
Record xrtBufferHandle := {
  bo_export : Z;
  bo_size : Z;
  bo_address : Z
}.

(** Answers of the hardware and the kernel.  The busy-wait loops consume the
    successive answers of [XAie_DmaGetPendingBdCount] and
    [XAie_DmaWaitForDone]; running out of answers while still polling is
    reported as [Spin]. *)
Record Hw := {
  hw_npend : list Z;
  hw_done : list bool;
  hw_attach : Z -> Z;
  hw_detach : Z -> Z;
  hw_mmap : Z -> Z -> Z;
  hw_counter : XAie_LocType -> ResModule -> Z -> Z;
  hw_errno : Z
}.

(** Calls made to the collaborators, in order. *)
Inductive event :=
| EvGetPendingBdCount (col pchan : Z) (dir : XAie_DmaDirection)
| EvWaitForDone (col pchan : Z) (dir : XAie_DmaDirection) (timeout : Z)
| EvExport (fd : Z)
| EvAttach (fd : Z)
| EvMmap (size fd : Z)
| EvMunmap (addr size : Z)
| EvDetach (fd : Z)
| EvDmaSetAddrLen (addr len : Z)
| EvDmaSetLock (bd : Z)
| EvDmaEnableBd
| EvDmaWriteBd (col bd : Z)
| EvPushBdToQueue (col pchan : Z) (dir : XAie_DmaDirection) (bd : Z)
| EvRequestStreamEventPort (col owner result : Z)
| EvRequestPerformanceCounter (col owner result : Z)
| EvReleasePerformanceCounter (m : ResModule) (loc : XAie_LocType) (owner id : Z)
| EvReleaseStreamEventPort (col owner id : Z)
| EvEventSelectStrmPort (loc : XAie_LocType) (port : Z) (mode : XAie_StrmPortIntf) (stream_id : Z)
| EvPerfCounterControlSet (loc : XAie_LocType) (counter port : Z)
| EvPerfCounterGet (loc : XAie_LocType) (m : ResModule) (id : Z)
| EvPerfCounterReset (loc : XAie_LocType) (m : ResModule) (id : Z)
| EvPerfCounterResetControlReset (loc : XAie_LocType) (m : ResModule) (id : Z)
| EvEventSelectStrmPortReset (loc : XAie_LocType) (id : Z).

(* The per-tile resource pool.  [Resources::AIE] (aie_resource.cpp) is not
   among the sources; the definitions below follow the spec: "Request one
   performance-counter resource and one stream-event-port resource from the
   hardware resource pool scoped to that tile location, using the new
   session's handle as the requesting owner", a failed request yields a
   negative id, and stop "release[s] each resource back to its owning tile's
   resource pool (keyed by module: tile-core module vs. shim/PL module)". *)

(** Modelled from the spec: a module of [Resources::AIE] holds a finite set of
    performance counters and stream event ports, each free ([None]) or owned
    by a handle. *)
Record ModulePool := {
  perf_counters : list (option Z);
  event_ports : list (option Z)
}.

(** Modelled from the spec: [Resources::AIE], the pools of the shim tiles
    ([getShimTile(col)->plModule]) and of the array tiles
    ([getAIETile(col,row)->coreModule]). *)
Record Pool := {
  shim_tiles : list ModulePool;
  aie_tiles : list (list ModulePool)
}.

(** Modelled from the spec: the first free slot of a module's resource list. *)
Fixpoint first_free (l : list (option Z)) : option nat :=
  match l with
  | [] => None
  | None :: _ => Some 0%nat
  | Some _ :: l' => S <$> first_free l'
  end.

(** Modelled from the spec: a request grants the first free slot to [owner]
    and yields its index, or [-1] when none is free. *)
Definition request_slot (l : list (option Z)) (owner : Z) : list (option Z) * Z :=
  match first_free l with
  | Some i => (<[i := Some owner]> l, Z.of_nat i)
  | None => (l, -1)
  end.

(** Modelled from the spec: a release gives the slot back to the pool. *)
Definition release_slot (l : list (option Z)) (id : Z) : list (option Z) :=
  if id <? 0 then l else <[Z.to_nat id := None]> l.

(** Modelled from the spec: [requestPerformanceCounter] of a module. *)
Definition requestPerformanceCounter (m : ModulePool) (owner : Z) : ModulePool * Z :=
  let (l, r) := request_slot (perf_counters m) owner in
  ({| perf_counters := l; event_ports := event_ports m |}, r).

(** Modelled from the spec: [requestStreamEventPort] of a module. *)
Definition requestStreamEventPort (m : ModulePool) (owner : Z) : ModulePool * Z :=
  let (l, r) := request_slot (event_ports m) owner in
  ({| perf_counters := perf_counters m; event_ports := l |}, r).

(** Modelled from the spec: [releasePerformanceCounter] of a module. *)
Definition releasePerformanceCounter (m : ModulePool) (id : Z) : ModulePool :=
  {| perf_counters := release_slot (perf_counters m) id; event_ports := event_ports m |}.

(** Modelled from the spec: [releaseStreamEventPort] of a module. *)
Definition releaseStreamEventPort (m : ModulePool) (id : Z) : ModulePool :=
  {| perf_counters := perf_counters m; event_ports := release_slot (event_ports m) id |}.

(** ** The [Aie] object *)

Record Aie := {
  devInst : bool;                  (** [devInst != nullptr] *)
  gmios : list gmio_type;
  plios : list plio_type;
  shim_dma : list ShimDMA;
  eventRecords : list EventRecord;
  resources : Pool;
  hw : Hw;
  trace : list event
}.

Definition set_shim_dma (s : Aie) (x : list ShimDMA) : Aie :=
  {| devInst := devInst s; gmios := gmios s; plios := plios s; shim_dma := x;
     eventRecords := eventRecords s; resources := resources s; hw := hw s;
     trace := trace s |}.
Definition set_eventRecords (s : Aie) (x : list EventRecord) : Aie :=
  {| devInst := devInst s; gmios := gmios s; plios := plios s; shim_dma := shim_dma s;
     eventRecords := x; resources := resources s; hw := hw s; trace := trace s |}.
Definition set_resources (s : Aie) (x : Pool) : Aie :=
  {| devInst := devInst s; gmios := gmios s; plios := plios s; shim_dma := shim_dma s;
     eventRecords := eventRecords s; resources := x; hw := hw s; trace := trace s |}.
Definition set_hw (s : Aie) (x : Hw) : Aie :=
  {| devInst := devInst s; gmios := gmios s; plios := plios s; shim_dma := shim_dma s;
     eventRecords := eventRecords s; resources := resources s; hw := x; trace := trace s |}.
Definition set_trace (s : Aie) (x : list event) : Aie :=
  {| devInst := devInst s; gmios := gmios s; plios := plios s; shim_dma := shim_dma s;
     eventRecords := eventRecords s; resources := resources s; hw := hw s; trace := x |}.

(** ** A state and exception monad

    [xrt_error] is [xrt_core::error] (a negative errno and a message);
    [std_out_of_range] is thrown by [std::vector::at].  [Undef] is undefined
    behaviour (an unchecked index, [front] of an empty queue); [Spin] is a
    polling loop that has not ended within the hardware answers given. *)
Inductive exn :=
| xrt_error (code : Z) (msg : string)
| std_out_of_range.

Inductive outcome (A : Type) :=
| Ret (a : A)
| Raise (e : exn)
| Undef
| Spin.
Arguments Ret {A} a.
Arguments Raise {A} e.
Arguments Undef {A}.
Arguments Spin {A}.

Definition M (A : Type) : Type := Aie -> Aie * outcome A.

Definition ok {A} (a : A) : M A := fun s => (s, Ret a).

Definition bind {A B} (m : M A) (f : A -> M B) : M B :=
  fun s =>
    match m s with
    | (s', Ret a) => f a s'
    | (s', Raise e) => (s', Raise e)
    | (s', Undef) => (s', Undef)
    | (s', Spin) => (s', Spin)
    end.

Notation "'let!' x ':=' m 'in' k" := (bind m (fun x => k))
  (at level 200, x name, m at level 100, k at level 200, right associativity).

Definition throw {A} (code : Z) (msg : string) : M A :=
  fun s => (s, Raise (xrt_error code msg)).
Definition undef {A} : M A := fun s => (s, Undef).
Definition spin {A} : M A := fun s => (s, Spin).
Definition gets {A} (f : Aie -> A) : M A := fun s => (s, Ret (f s)).
Definition modify (f : Aie -> Aie) : M unit := fun s => (f s, Ret tt).
Definition emit (e : event) : M unit := modify (fun s => set_trace s (trace s ++ [e])).

(** ** Shim DMA channels *)

(** [shim_dma.at(col)]. *)
Definition shim_dma_at (col : Z) : M ShimDMA :=
  fun s =>
    match (if col <? 0 then None else shim_dma s !! Z.to_nat col) with
    | Some d => (s, Ret d)
    | None => (s, Raise std_out_of_range)
    end.

Definition chan_lookup (s : Aie) (col chan : Z) : option DMAChannel :=
  if (col <? 0) || (chan <? 0) then None
  else d ← shim_dma s !! Z.to_nat col; dma_chan d !! Z.to_nat chan.

Definition set_dma_chan (d : ShimDMA) (x : list DMAChannel) : ShimDMA :=
  {| dma_chan := x; maxqSize := maxqSize d; configured := configured d |}.

Definition chan_update (s : Aie) (col chan : Z) (c : DMAChannel) : Aie :=
  set_shim_dma s
    (alter (fun d => set_dma_chan d (<[Z.to_nat chan := c]> (dma_chan d)))
       (Z.to_nat col) (shim_dma s)).

(** [dmap->dma_chan[chan]]: an unchecked array index. *)
Definition get_chan (col chan : Z) : M DMAChannel :=
  fun s =>
    match chan_lookup s col chan with
    | Some c => (s, Ret c)
    | None => (s, Undef)
    end.

Definition put_chan (col chan : Z) (c : DMAChannel) : M unit :=
  modify (fun s => chan_update s col chan c).

(** The [std::queue] operations; [front] and [pop] of an empty queue are
    undefined. *)
Definition idle_front (col chan : Z) : M BD :=
  let! c := get_chan col chan in
  match idle_bds c with b :: _ => ok b | [] => undef end.
Definition idle_pop (col chan : Z) : M unit :=
  let! c := get_chan col chan in
  match idle_bds c with
  | _ :: l => put_chan col chan {| idle_bds := l; pend_bds := pend_bds c |}
  | [] => undef
  end.
Definition idle_push (col chan : Z) (b : BD) : M unit :=
  let! c := get_chan col chan in
  put_chan col chan {| idle_bds := idle_bds c ++ [b]; pend_bds := pend_bds c |}.
Definition pend_front (col chan : Z) : M BD :=
  let! c := get_chan col chan in
  match pend_bds c with b :: _ => ok b | [] => undef end.
Definition pend_pop (col chan : Z) : M unit :=
  let! c := get_chan col chan in
  match pend_bds c with
  | _ :: l => put_chan col chan {| idle_bds := idle_bds c; pend_bds := l |}
  | [] => undef
  end.
Definition pend_push (col chan : Z) (b : BD) : M unit :=
  let! c := get_chan col chan in
  put_chan col chan {| idle_bds := idle_bds c; pend_bds := pend_bds c ++ [b] |}.

(** ** Hardware and kernel calls *)

Definition errno : M Z := gets (fun s => hw_errno (hw s)).

Definition XAie_DmaGetPendingBdCount (col pchan : Z) (dir : XAie_DmaDirection) : M Z :=
  let! _ := emit (EvGetPendingBdCount col pchan dir) in
  fun s =>
    match hw_npend (hw s) with
    | n :: rest =>
        let h := hw s in
        (set_hw s {| hw_npend := rest; hw_done := hw_done h; hw_attach := hw_attach h;
                     hw_detach := hw_detach h; hw_mmap := hw_mmap h;
                     hw_counter := hw_counter h; hw_errno := hw_errno h |},
         Ret (n mod 256))                       (* uint8_t npend *)
    | [] => (s, Spin)
    end.

(** [XAie_DmaWaitForDone(...) != XAIE_OK]: [true] is [XAIE_OK]. *)
Definition XAie_DmaWaitForDone (col pchan : Z) (dir : XAie_DmaDirection) (timeout : Z) : M bool :=
  let! _ := emit (EvWaitForDone col pchan dir timeout) in
  fun s =>
    match hw_done (hw s) with
    | d :: rest =>
        let h := hw s in
        (set_hw s {| hw_npend := hw_npend h; hw_done := rest; hw_attach := hw_attach h;
                     hw_detach := hw_detach h; hw_mmap := hw_mmap h;
                     hw_counter := hw_counter h; hw_errno := hw_errno h |},
         Ret d)
    | [] => (s, Spin)
    end.

Definition ioctl_attach (fd : Z) : M Z :=
  let! _ := emit (EvAttach fd) in gets (fun s => hw_attach (hw s) fd).
Definition ioctl_detach (fd : Z) : M Z :=
  let! _ := emit (EvDetach fd) in gets (fun s => hw_detach (hw s) fd).
Definition mmap (size fd : Z) : M Z :=
  let! _ := emit (EvMmap size fd) in gets (fun s => hw_mmap (hw s) size fd).

(** ** Buffer descriptors *)

(** [Aie::prepare_bd]: export the buffer, attach it to the partition and map
    it. *)
Definition prepare_bd (bd : BD) (bo : xrtBufferHandle) : M BD :=
  let buf_fd := bo_export bo in
  let! _ := emit (EvExport buf_fd) in
  if buf_fd =? XRT_NULL_BO_EXPORT then
    let! e := errno in throw (- e) "Sync AIE Bo: fail to export BO."
  else
    let bd := bd_set_buf_fd bd buf_fd in
    let! ret := ioctl_attach buf_fd in
    if negb (ret =? 0) then
      let! e := errno in throw (- e) "Sync AIE Bo: fail to attach DMA buf."
    else
      let bosize := bo_size bo in
      let bd := bd_set_size bd bosize in
      let! a := mmap bosize buf_fd in
      ok (bd_set_vaddr bd a).

(** [Aie::clear_bd]: unmap and detach the buffer bound to the slot. *)
Definition clear_bd (bd : BD) : M BD :=
  let! _ := emit (EvMunmap (vaddr bd) (bd_size bd)) in
  let bd := bd_set_vaddr bd 0 in
  let! ret := ioctl_detach (buf_fd bd) in
  if negb (ret =? 0) then
    let! e := errno in throw (- e) "Sync AIE Bo: fail to detach DMA buf."
  else ok bd.

(** The body of both drain loops: move the front pending slot to idle. *)
Definition drain_one (col chan : Z) : M unit :=
  let! bd := pend_front col chan in
  let! bd := clear_bd bd in
  let! _ := pend_pop col chan in
  idle_push col chan bd.

(** [for (int i = 0; i < num_comp; ++i)] of [submit_sync_bo]. *)
Fixpoint drain_completed (n : nat) (col chan : Z) : M unit :=
  match n with
  | O => ok tt
  | S n' => let! _ := drain_one col chan in drain_completed n' col chan
  end.

(** [while (dmap->dma_chan[chan].idle_bds.empty()) { ... }]: the busy wait for
    a free slot.  Every turn of the loop consumes one hardware answer, so
    [fuel] one above their number is never the limit. *)
Fixpoint wait_free_bd (fuel : nat) (col chan pchan : Z) (gmdir : XAie_DmaDirection)
    (maxq : Z) : M unit :=
  match fuel with
  | O => spin
  | S fuel' =>
      let! c := get_chan col chan in
      match idle_bds c with
      | [] =>
          let! npend := XAie_DmaGetPendingBdCount col pchan gmdir in
          let num_comp := maxq - npend in
          let! _ := drain_completed (Z.to_nat num_comp) col chan in
          wait_free_bd fuel' col chan pchan gmdir maxq
      | _ :: _ => ok tt
      end
  end.

Definition npend_answers : M nat := gets (fun s => length (hw_npend (hw s))).

Definition gmdir_of (g : gmio_type) : XAie_DmaDirection :=
  if gmio_type_ g =? 0 then DMA_MM2S else DMA_S2MM.

(** [if (size & XAIEDMA_SHIM_TXFER_LEN32_MASK != 0)]: [!=] binds tighter than
    [&], so the test is [size & (XAIEDMA_SHIM_TXFER_LEN32_MASK != 0)]. *)
Definition size_check_fails (size : Z) : bool :=
  negb (Z.land size (if negb (XAIEDMA_SHIM_TXFER_LEN32_MASK =? 0) then 1 else 0) =? 0).

(** [Aie::submit_sync_bo]. *)
Definition submit_sync_bo (bo : xrtBufferHandle) (gmio : gmio_type)
    (dir : xclBOSyncDirection) (size offset : Z) : M unit :=
  let! _ :=
    match dir with
    | XCL_BO_SYNC_BO_GMIO_TO_AIE =>
        if negb (gmio_type_ gmio =? 0)
        then throw (- EINVAL) "Sync BO direction does not match GMIO type" else ok tt
    | XCL_BO_SYNC_BO_AIE_TO_GMIO =>
        if negb (gmio_type_ gmio =? 1)
        then throw (- EINVAL) "Sync BO direction does not match GMIO type" else ok tt
    | _ => throw (- EINVAL) "Can't sync BO: unknown direction."
    end in
  if size_check_fails size then
    throw (- EINVAL) "Sync AIE Bo fails: size is not 32 bits aligned."
  else
    let! dmap := shim_dma_at (gmio_shim_col gmio) in
    let col := gmio_shim_col gmio in
    let chan := gmio_channel_number gmio in
    let gmdir := gmdir_of gmio in
    let pchan := CONVERT_LCHANL_TO_PCHANL chan in
    let! n := npend_answers in
    let! _ := wait_free_bd (S n) col chan pchan gmdir (maxqSize dmap) in
    let! bd := idle_front col chan in
    let! _ := idle_pop col chan in
    let! bd := prepare_bd bd bo in
    let! _ := emit (EvDmaSetAddrLen (vaddr bd + offset) size) in
    let! _ := emit (EvDmaSetLock (bd_num bd)) in
    let! _ := emit EvDmaEnableBd in
    let! _ := emit (EvDmaWriteBd col (bd_num bd)) in
    let! _ := emit (EvPushBdToQueue col pchan gmdir (bd_num bd)) in
    pend_push col chan bd.

(** [while (XAie_DmaWaitForDone(...) != XAIE_OK);] *)
Fixpoint wait_done (fuel : nat) (col pchan : Z) (gmdir : XAie_DmaDirection) (timeout : Z)
    : M unit :=
  match fuel with
  | O => spin
  | S fuel' =>
      let! d := XAie_DmaWaitForDone col pchan gmdir timeout in
      if d then ok tt else wait_done fuel' col pchan gmdir timeout
  end.

(** [while (!dmap->dma_chan[chan].pend_bds.empty()) { ... }] *)
Fixpoint drain_pending (fuel : nat) (col chan : Z) : M unit :=
  match fuel with
  | O => spin
  | S fuel' =>
      let! c := get_chan col chan in
      match pend_bds c with
      | [] => ok tt
      | _ :: _ => let! _ := drain_one col chan in drain_pending fuel' col chan
      end
  end.

Definition pending_count (col chan : Z) : M nat :=
  let! c := get_chan col chan in ok (length (pend_bds c)).

Definition done_answers : M nat := gets (fun s => length (hw_done (hw s))).

(** [Aie::wait_sync_bo]; the shim DMA [dmap] is identified by its column. *)
Definition wait_sync_bo (col chan : Z) (gmdir : XAie_DmaDirection) (timeout : Z) : M unit :=
  let! n := done_answers in
  let! _ := wait_done (S n) col (CONVERT_LCHANL_TO_PCHANL chan) gmdir timeout in
  let! k := pending_count col chan in
  drain_pending (S k) col chan.

(** [std::find_if] on the GMIO table by name. *)
Definition find_gmio (name : string) (l : list gmio_type) : option gmio_type :=
  List.find (fun g => String.eqb (gmio_name g) name) l.

(** [Aie::sync_bo]: the blocking transfer. *)
Definition sync_bo (bo : xrtBufferHandle) (gmioName : string) (dir : xclBOSyncDirection)
    (size offset : Z) : M unit :=
  let! di := gets devInst in
  if negb di then throw (- EINVAL) "Can't sync BO: AIE is not initialized" else
  let! gs := gets gmios in
  match find_gmio gmioName gs with
  | None => throw (- EINVAL) "Can't sync BO: GMIO name not found"
  | Some gmio =>
      let! _ := submit_sync_bo bo gmio dir size offset in
      let! _ := shim_dma_at (gmio_shim_col gmio) in
      wait_sync_bo (gmio_shim_col gmio) (gmio_channel_number gmio) (gmdir_of gmio) 0
  end.

(** [Aie::sync_bo_nb]: the non-blocking transfer. *)
Definition sync_bo_nb (bo : xrtBufferHandle) (gmioName : string) (dir : xclBOSyncDirection)
    (size offset : Z) : M unit :=
  let! di := gets devInst in
  if negb di then throw (- EINVAL) "Can't sync BO: AIE is not initialized" else
  let! gs := gets gmios in
  match find_gmio gmioName gs with
  | None => throw (- EINVAL) "Can't sync BO: GMIO name not found"
  | Some gmio => submit_sync_bo bo gmio dir size offset
  end.

(** [Aie::wait_gmio]. *)
Definition wait_gmio (gmioName : string) : M unit :=
  let! di := gets devInst in
  if negb di then throw (- EINVAL) "Can't wait GMIO: AIE is not initialized" else
  let! gs := gets gmios in
  match find_gmio gmioName gs with
  | None => throw (- EINVAL) "Can't wait GMIO: GMIO name not found"
  | Some gmio =>
      let! _ := shim_dma_at (gmio_shim_col gmio) in
      wait_sync_bo (gmio_shim_col gmio) (gmio_channel_number gmio) (gmdir_of gmio) 0
  end.

(** ** Profiling sessions *)

(** Modelled from the spec: [Resources::AIE::getShimTile(col)->plModule]; a
    column outside the array is not covered by the spec. *)
Definition shim_tile_pool (col : Z) : M ModulePool :=
  fun s =>
    match (if col <? 0 then None else shim_tiles (resources s) !! Z.to_nat col) with
    | Some m => (s, Ret m)
    | None => (s, Undef)
    end.

Definition put_shim_tile_pool (col : Z) (m : ModulePool) : M unit :=
  modify (fun s => set_resources s
    {| shim_tiles := <[Z.to_nat col := m]> (shim_tiles (resources s));
       aie_tiles := aie_tiles (resources s) |}).

(** Modelled from the spec: [Resources::AIE::getAIETile(col,row)->coreModule]. *)
Definition aie_tile_pool (col row : Z) : M ModulePool :=
  fun s =>
    match (if (col <? 0) || (row <? 0) then None
           else r ← aie_tiles (resources s) !! Z.to_nat col; r !! Z.to_nat row) with
    | Some m => (s, Ret m)
    | None => (s, Undef)
    end.

Definition put_aie_tile_pool (col row : Z) (m : ModulePool) : M unit :=
  modify (fun s => set_resources s
    {| shim_tiles := shim_tiles (resources s);
       aie_tiles := alter (fun r => <[Z.to_nat row := m]> r) (Z.to_nat col)
                      (aie_tiles (resources s)) |}).

(** [getShimTile(loc.Col)->plModule.releasePerformanceCounter(owner, id)] *)
Definition release_pl_counter (loc : XAie_LocType) (owner id : Z) : M unit :=
  let! _ := emit (EvReleasePerformanceCounter pl_module loc owner id) in
  let! m := shim_tile_pool (Col loc) in
  put_shim_tile_pool (Col loc) (releasePerformanceCounter m id).

(** [getAIETile(loc.Col, loc.Row - 1)->coreModule.releasePerformanceCounter(owner, id)] *)
Definition release_core_counter (loc : XAie_LocType) (owner id : Z) : M unit :=
  let! _ := emit (EvReleasePerformanceCounter core_module loc owner id) in
  let! m := aie_tile_pool (Col loc) (Row loc - 1) in
  put_aie_tile_pool (Col loc) (Row loc - 1) (releasePerformanceCounter m id).

(** [getShimTile(loc.Col)->plModule.releaseStreamEventPort(owner, id)] *)
Definition release_pl_port (loc : XAie_LocType) (owner id : Z) : M unit :=
  let! _ := emit (EvReleaseStreamEventPort (Col loc) owner id) in
  let! m := shim_tile_pool (Col loc) in
  put_shim_tile_pool (Col loc) (releaseStreamEventPort m id).

(** PLIO lookup of [start_profiling]: by name, then by logical name. *)
Definition find_plio (name : string) (l : list plio_type) : option plio_type :=
  match List.find (fun p => String.eqb (plio_name p) name) l with
  | Some p => Some p
  | None => List.find (fun p => String.eqb (plio_logical_name p) name) l
  end.

(** The second half of [Aie::start_profiling], from [handleId] on. *)
Definition acquire_and_record (option : Z) (shim_tile : XAie_LocType)
    (mode : XAie_StrmPortIntf) (stream_id : Z) : M Z :=
  let col := Col shim_tile in
  let! recs := gets eventRecords in
  let handleId := to_int (Z.of_nat (List.length recs)) in
  let! m := shim_tile_pool col in
  let (m, eventPortId) := requestStreamEventPort m handleId in
  let! _ := put_shim_tile_pool col m in
  let! _ := emit (EvRequestStreamEventPort col handleId eventPortId) in
  let! m := shim_tile_pool col in
  let (m, counterId) := requestPerformanceCounter m handleId in
  let! _ := put_shim_tile_pool col m in
  let! _ := emit (EvRequestPerformanceCounter col handleId counterId) in
  if (0 <=? counterId) && (0 <=? eventPortId) then
    let! _ := emit (EvEventSelectStrmPort shim_tile eventPortId mode stream_id) in
    let! _ := emit (EvPerfCounterControlSet shim_tile counterId eventPortId) in
    let r := {| ev_option := option;
                acquiredResources :=
                  [ {| res_loc := shim_tile; res_module := pl_module;
                       res_resource := performance_counter; res_id := counterId |};
                    {| res_loc := shim_tile; res_module := pl_module;
                       res_resource := stream_switch_event_port; res_id := eventPortId |} ] |} in
    let! _ := modify (fun s => set_eventRecords s (eventRecords s ++ [r])) in
    ok handleId
  else
    let! _ := (if 0 <=? counterId then release_pl_counter shim_tile handleId counterId
               else ok tt) in
    let! _ := (if 0 <=? eventPortId then release_pl_port shim_tile handleId eventPortId
               else ok tt) in
    throw (- EAGAIN) "Can't start profiling: Failed to request performance counter or stream switch event port resources.".

(** [Aie::start_profiling]. *)
Definition start_profiling (option : Z) (port1_name port2_name : string) (value : Z) : M Z :=
  let! di := gets devInst in
  if negb di then throw (- EINVAL) "Start profiling fails: AIE is not initialized" else
  if negb (option =? IO_STREAM_RUNNING_EVENT_COUNT) then
    throw (- EINVAL) "Start profiling fails: unknown profiling option."
  else
  let! gs := gets gmios in
  let! ps := gets plios in
  match find_gmio port1_name gs, find_plio port1_name ps with
  | None, None =>
      throw (- EINVAL) ("Can't start profiling: port name '" ++ port1_name ++ "' not found")
  | Some _, Some _ =>
      throw (- EINVAL) ("Can't start profiling: ambiguous port name '" ++ port1_name ++ "'")
  | Some gmio, None =>
      acquire_and_record option (TileLoc (gmio_shim_col gmio) 0)
        (if gmio_type_ gmio =? 1 then XAIE_STRMSW_MASTER else XAIE_STRMSW_SLAVE)
        (gmio_stream_id gmio)
  | None, Some plio =>
      acquire_and_record option (TileLoc (plio_shim_col plio) 0)
        (if plio_is_master plio then XAIE_STRMSW_MASTER else XAIE_STRMSW_SLAVE)
        (plio_stream_id plio)
  end.

(** [eventRecords[phdl]]: an unchecked index ([int] converted to [size_t]). *)
Definition record_at (recs : list EventRecord) (phdl : Z) : option EventRecord :=
  recs !! Z.to_nat (to_size_t phdl).

(** [Aie::read_profiling]. *)
Definition read_profiling (phdl : Z) : M Z :=
  let! recs := gets eventRecords in
  match record_at recs phdl with
  | None => undef
  | Some r =>
      match acquiredResources r with
      | [] => undef
      | acquiredResource :: _ =>
          match res_resource acquiredResource with
          | performance_counter =>
              let! _ := emit (EvPerfCounterGet (res_loc acquiredResource)
                                (res_module acquiredResource) (res_id acquiredResource)) in
              (* the 32-bit counter is stored into the zeroed [uint64_t value] *)
              gets (fun s => hw_counter (hw s) (res_loc acquiredResource)
                               (res_module acquiredResource) (res_id acquiredResource)
                             mod 2 ^ 32)
          | _ =>
              throw (- EAGAIN)
                "Can't read profiling: The acquired resources order does not match the profiling option."
          end
      end
  end.

(** One turn of the loop of [Aie::stop_profiling]. *)
Definition stop_resource (phdl : Z) (acquiredResource : AcquiredResource) : M unit :=
  let loc := res_loc acquiredResource in
  let md := res_module acquiredResource in
  match res_resource acquiredResource with
  | performance_counter =>
      let counterId := res_id acquiredResource mod 256 in      (* u8 *)
      let! _ := emit (EvPerfCounterReset loc md counterId) in
      let! _ := emit (EvPerfCounterResetControlReset loc md counterId) in
      match md with
      | pl_module => release_pl_counter loc phdl counterId
      | core_module => release_core_counter loc phdl counterId
      | memory_module => ok tt
      end
  | stream_switch_event_port =>
      let eventPortId := res_id acquiredResource mod 256 in    (* u8 *)
      let! _ := emit (EvEventSelectStrmPortReset loc eventPortId) in
      match md with
      | pl_module => release_pl_port loc phdl eventPortId
      | _ => ok tt
      end
  | _ => ok tt
  end.

Fixpoint stop_resources (phdl : Z) (l : list AcquiredResource) : M unit :=
  match l with
  | [] => ok tt
  | ar :: l' => let! _ := stop_resource phdl ar in stop_resources phdl l'
  end.

(** [Aie::stop_profiling]: [phdl < eventRecords.size()] compares the [int]
    handle converted to [size_t]. *)
Definition stop_profiling (phdl : Z) : M unit :=
  let! recs := gets eventRecords in
  if to_size_t phdl <? Z.of_nat (List.length recs) then
    match record_at recs phdl with
    | Some r =>
        if 0 <=? ev_option r then stop_resources phdl (acquiredResources r) else ok tt
    | None => undef
    end
  else ok tt.

Open Scope list_scope.

(** ** A concrete array: one shim column, one GMIO towards the array on
    channel 0, one PLIO, and a shim tile with two counters and two event
    ports. *)

Definition hw_ok (done : list bool) (npend : list Z) : Hw :=
  {| hw_npend := npend; hw_done := done; hw_attach := fun _ => 0; hw_detach := fun _ => 0;
     hw_mmap := fun _ fd => 4096 * fd; hw_counter := fun _ _ id => 1000 + id;
     hw_errno := 5 |}.

Definition gmio_in : gmio_type :=
  {| gmio_name := "gmio_in"; gmio_type_ := 0; gmio_shim_col := 0; gmio_channel_number := 0;
     gmio_stream_id := 3; gmio_burst_len := 64 |}.

Definition plio_out : plio_type :=
  {| plio_name := "plio_out"; plio_logical_name := "out0"; plio_shim_col := 0;
     plio_stream_id := 1; plio_is_master := true |}.

Definition chan_init (chan maxq : Z) : DMAChannel :=
  {| idle_bds := map (fun i => bd_empty (chan * maxq + i)) (seqZ 0 maxq); pend_bds := [] |}.

Definition dma_col0 : ShimDMA :=
  {| dma_chan := [chan_init 0 4; chan_init 1 4; chan_init 2 4; chan_init 3 4];
     maxqSize := 4; configured := true |}.

Definition pool_free (counters ports : nat) : Pool :=
  {| shim_tiles := [ {| perf_counters := replicate counters None;
                        event_ports := replicate ports None |} ];
     aie_tiles := [] |}.

Definition aie_init (h : Hw) (ps : list plio_type) (pool : Pool) : Aie :=
  {| devInst := true; gmios := [gmio_in]; plios := ps; shim_dma := [dma_col0];
     eventRecords := []; resources := pool; hw := h; trace := [] |}.

Definition bo256 : xrtBufferHandle := {| bo_export := 7; bo_size := 256; bo_address := 0 |}.

(** A buffer the buffer collaborator cannot export. *)
Definition bo_unexportable : xrtBufferHandle :=
  {| bo_export := XRT_NULL_BO_EXPORT; bo_size := 256; bo_address := 0 |}.

(** The number of slots of a channel, idle or pending. *)
Definition slot_count (c : DMAChannel) : nat :=
  List.length (idle_bds c) + List.length (pend_bds c).

Definition chan_slots (s : Aie) (col chan : Z) : option nat :=
  slot_count <$> chan_lookup s col chan.

Definition chan_pending (s : Aie) (col chan : Z) : option nat :=
  (fun c => List.length (pend_bds c)) <$> chan_lookup s col chan.

(** The calls that release a slot's host-memory binding ([clear_bd]). *)
Definition release_events (bd : BD) : list event :=
  [EvMunmap (vaddr bd) (bd_size bd); EvDetach (buf_fd bd)].

Definition is_release (e : event) : bool :=
  match e with EvMunmap _ _ | EvDetach _ => true | _ => false end.

Definition releases (t : list event) : list event := filter (fun e => is_release e = true) t.

(** The slot as [clear_bd] leaves it. *)
Definition cleared (bd : BD) : BD := bd_set_vaddr bd 0.

(** ** Lemmas on the monad *)

Lemma bind_ret {A B} (m : M A) (f : A -> M B) s s' a :
  m s = (s', Ret a) -> bind m f s = f a s'.
Proof. intros H. unfold bind. rewrite H. reflexivity. Qed.

Lemma bind_inv {A B} (m : M A) (f : A -> M B) s s'' b :
  bind m f s = (s'', Ret b) -> exists s' a, m s = (s', Ret a) /\ f a s' = (s'', Ret b).
Proof.
  unfold bind. destruct (m s) as [s' o] eqn:E.
  destruct o; intros H; try discriminate; eauto.
Qed.

Lemma size_check_fails_odd (size : Z) : size_check_fails size = Z.odd size.
Proof.
  unfold size_check_fails, XAIEDMA_SHIM_TXFER_LEN32_MASK. simpl.
  change 1 with (Z.ones 1). rewrite Z.land_ones by lia.
  rewrite Zmod_odd. destruct (Z.odd size); reflexivity.
Qed.

(** ** Claims on concrete inputs *)

(** C1 (code_bug).  The alignment test of [submit_sync_bo] only looks at
    bit 0 of the length: a 2-byte transfer, not a multiple of 32 bits, is
    accepted; a descriptor is taken from the idle queue, bound to the buffer
    and pushed to the hardware queue. *)
Lemma sync_bo_nb_misaligned_size_accepted :
  let s := aie_init (hw_ok [] []) [plio_out] (pool_free 2 2) in
  let (s', o) := sync_bo_nb bo256 "gmio_in" XCL_BO_SYNC_BO_GMIO_TO_AIE 2 0 s in
  Z.land 2 XAIEDMA_SHIM_TXFER_LEN32_MASK <> 0 /\
  o = Ret tt /\
  chan_pending s 0 0 = Some 0%nat /\ chan_pending s' 0 0 = Some 1%nat /\
  trace s' = [EvExport 7; EvAttach 7; EvMmap 256 7; EvDmaSetAddrLen (4096 * 7) 2;
              EvDmaSetLock 0; EvDmaEnableBd; EvDmaWriteBd 0 0;
              EvPushBdToQueue 0 0 DMA_MM2S 0].
Proof. vm_compute. repeat split; discriminate || reflexivity. Qed.

(** C2 (code_bug).  [stop_profiling] never marks the session's option, so
    a second stop on the same handle resets the counter and releases the
    counter and the event port once more. *)
Lemma stop_profiling_twice_releases_twice :
  let s := aie_init (hw_ok [] []) [plio_out] (pool_free 2 2) in
  let (s1, o1) := start_profiling IO_STREAM_RUNNING_EVENT_COUNT "plio_out" "" 0 s in
  let (s2, o2) := stop_profiling 0 s1 in
  let (s3, o3) := stop_profiling 0 s2 in
  o1 = Ret 0 /\ o2 = Ret tt /\ o3 = Ret tt /\
  trace s3 = (trace s2 ++
    [EvPerfCounterReset (TileLoc 0 0) pl_module 0;
     EvPerfCounterResetControlReset (TileLoc 0 0) pl_module 0;
     EvReleasePerformanceCounter pl_module (TileLoc 0 0) 0 0;
     EvEventSelectStrmPortReset (TileLoc 0 0) 0;
     EvReleaseStreamEventPort 0 0 0])%list.
Proof. vm_compute. repeat split. Qed.

(** The double release frees resources of another session: after start(0),
    stop(0) and start(1), which is granted the same counter and port, a
    second stop(0) returns them to the pool while session 1 still holds
    them. *)
Lemma stop_profiling_twice_frees_other_session :
  let s := aie_init (hw_ok [] []) [plio_out] (pool_free 1 1) in
  let (s1, o1) := start_profiling IO_STREAM_RUNNING_EVENT_COUNT "plio_out" "" 0 s in
  let (s2, _) := stop_profiling 0 s1 in
  let (s3, o3) := start_profiling IO_STREAM_RUNNING_EVENT_COUNT "out0" "" 0 s2 in
  let (s4, _) := stop_profiling 0 s3 in
  o1 = Ret 0 /\ o3 = Ret 1 /\
  shim_tiles (resources s3) = [ {| perf_counters := [Some 1]; event_ports := [Some 1] |} ] /\
  shim_tiles (resources s4) = [ {| perf_counters := [None]; event_ports := [None] |} ].
Proof. vm_compute. repeat split. Qed.

(** C3 (code_bug).  When [xrtBOExport] fails in [prepare_bd], the slot
    already popped from the idle queue is neither pushed back nor made
    pending: the channel has one slot less. *)
Lemma sync_bo_export_failure_loses_slot :
  let s := aie_init (hw_ok [true] []) [plio_out] (pool_free 2 2) in
  let (s', o) := sync_bo_nb bo_unexportable "gmio_in" XCL_BO_SYNC_BO_GMIO_TO_AIE 256 0 s in
  o = Raise (xrt_error (-5) "Sync AIE Bo: fail to export BO.") /\
  chan_slots s 0 0 = Some 4%nat /\ chan_slots s' 0 0 = Some 3%nat.
Proof. vm_compute. repeat split. Qed.

(** A consequence of the lost slot: once the three remaining slots are
    pending, the drain loop of the next submission pops four completed
    descriptors from a pending queue of three, [front] of an empty queue. *)
Lemma sync_bo_after_lost_slot_undefined :
  let s := aie_init (hw_ok [] [0]) [plio_out] (pool_free 2 2) in
  let (s1, _) := sync_bo_nb bo_unexportable "gmio_in" XCL_BO_SYNC_BO_GMIO_TO_AIE 256 0 s in
  let (s2, _) := sync_bo_nb bo256 "gmio_in" XCL_BO_SYNC_BO_GMIO_TO_AIE 256 0 s1 in
  let (s3, _) := sync_bo_nb bo256 "gmio_in" XCL_BO_SYNC_BO_GMIO_TO_AIE 256 0 s2 in
  let (s4, _) := sync_bo_nb bo256 "gmio_in" XCL_BO_SYNC_BO_GMIO_TO_AIE 256 0 s3 in
  let (s5, o5) := sync_bo_nb bo256 "gmio_in" XCL_BO_SYNC_BO_GMIO_TO_AIE 256 0 s4 in
  chan_pending s4 0 0 = Some 3%nat /\ o5 = Undef.
Proof. vm_compute. repeat split. Qed.

(** C6 (corrected).  An absent GMIO name is reported with [-EINVAL], the
    code a direction mismatch (an invalid argument) is reported with: the
    two failures differ only by their message. *)
Lemma sync_bo_not_found_same_code_as_invalid_argument :
  let s := aie_init (hw_ok [true] []) [plio_out] (pool_free 2 2) in
  sync_bo bo256 "no_such_port" XCL_BO_SYNC_BO_GMIO_TO_AIE 256 0 s
    = (s, Raise (xrt_error (- EINVAL) "Can't sync BO: GMIO name not found")) /\
  snd (sync_bo bo256 "gmio_in" XCL_BO_SYNC_BO_AIE_TO_GMIO 256 0 s)
    = Raise (xrt_error (- EINVAL) "Sync BO direction does not match GMIO type").
Proof. split; reflexivity. Qed.

(** A session whose first recorded resource is a stream event port. *)
Definition port_first_record : EventRecord :=
  {| ev_option := IO_STREAM_RUNNING_EVENT_COUNT;
     acquiredResources :=
       [ {| res_loc := TileLoc 0 0; res_module := pl_module;
            res_resource := stream_switch_event_port; res_id := 0 |};
         {| res_loc := TileLoc 0 0; res_module := pl_module;
            res_resource := performance_counter; res_id := 0 |} ] |}.

(** C8 (corrected).  The kind mismatch of [read_profiling] is reported with
    [-EAGAIN], the code of the exhausted-resources failure of
    [start_profiling], and not with the code of the uninitialised-state
    failures ([-EINVAL]). *)
Lemma read_profiling_kind_mismatch_is_eagain :
  let s := set_eventRecords (aie_init (hw_ok [] []) [plio_out] (pool_free 0 0))
             [port_first_record] in
  read_profiling 0 s
    = (s, Raise (xrt_error (- EAGAIN)
             "Can't read profiling: The acquired resources order does not match the profiling option.")) /\
  snd (start_profiling IO_STREAM_RUNNING_EVENT_COUNT "gmio_in" "" 0 s)
    = Raise (xrt_error (- EAGAIN)
             "Can't start profiling: Failed to request performance counter or stream switch event port resources.") /\
  snd (start_profiling IO_STREAM_RUNNING_EVENT_COUNT "gmio_in" "" 0
         {| devInst := false; gmios := gmios s; plios := plios s; shim_dma := shim_dma s;
            eventRecords := eventRecords s; resources := resources s; hw := hw s;
            trace := trace s |})
    = Raise (xrt_error (- EINVAL) "Start profiling fails: AIE is not initialized") /\
  - EAGAIN <> - EINVAL.
Proof. vm_compute. repeat split. discriminate. Qed.

(** ** Invariance of state components *)

(** [m] never changes the component [proj] of the state. *)
Definition keeps {B} (proj : Aie -> B) {A} (m : M A) : Prop :=
  forall s s' o, m s = (s', o) -> proj s' = proj s.

Create HintDb keeps.

Lemma keeps_ok {B} (proj : Aie -> B) {A} (a : A) : keeps proj (ok a).
Proof. intros s s' o H. injection H; intros; subst; reflexivity. Qed.
Lemma keeps_throw {B} (proj : Aie -> B) {A} c m : keeps proj (@throw A c m).
Proof. intros s s' o H. injection H; intros; subst; reflexivity. Qed.
Lemma keeps_undef {B} (proj : Aie -> B) {A} : keeps proj (@undef A).
Proof. intros s s' o H. injection H; intros; subst; reflexivity. Qed.
Lemma keeps_spin {B} (proj : Aie -> B) {A} : keeps proj (@spin A).
Proof. intros s s' o H. injection H; intros; subst; reflexivity. Qed.
Lemma keeps_gets {B} (proj : Aie -> B) {A} (f : Aie -> A) : keeps proj (gets f).
Proof. intros s s' o H. injection H; intros; subst; reflexivity. Qed.

Lemma keeps_bind {B} (proj : Aie -> B) {A C} (m : M A) (f : A -> M C) :
  keeps proj m -> (forall a, keeps proj (f a)) -> keeps proj (bind m f).
Proof.
  intros Hm Hf s s' o H. unfold bind in H.
  destruct (m s) as [s1 o1] eqn:E. pose proof (Hm _ _ _ E) as E1.
  destruct o1; try (injection H; intros; subst; exact E1).
  rewrite <- E1. eapply Hf; exact H.
Qed.

Lemma keeps_if {B} (proj : Aie -> B) {A} (b : bool) (m1 m2 : M A) :
  keeps proj m1 -> keeps proj m2 -> keeps proj (if b then m1 else m2).
Proof. destruct b; auto. Qed.

Lemma keeps_modify {B} (proj : Aie -> B) (f : Aie -> Aie) :
  (forall s, proj (f s) = proj s) -> keeps proj (modify f).
Proof. intros Hf s s' o H. injection H; intros; subst. apply Hf. Qed.

#[export] Hint Resolve keeps_ok keeps_throw keeps_undef keeps_spin keeps_gets keeps_bind
  keeps_if : keeps.

(** [emit] changes only the trace. *)
Lemma keeps_emit_records e : keeps eventRecords (emit e).
Proof. apply keeps_modify. reflexivity. Qed.
Lemma keeps_emit_dma e : keeps shim_dma (emit e).
Proof. apply keeps_modify. reflexivity. Qed.
Lemma keeps_emit_resources e : keeps resources (emit e).
Proof. apply keeps_modify. reflexivity. Qed.

Lemma keeps_put_shim_tile_pool_records col m : keeps eventRecords (put_shim_tile_pool col m).
Proof. apply keeps_modify. reflexivity. Qed.
Lemma keeps_put_aie_tile_pool_records col row m : keeps eventRecords (put_aie_tile_pool col row m).
Proof. apply keeps_modify. reflexivity. Qed.
Lemma keeps_shim_tile_pool {B} (proj : Aie -> B) col : keeps proj (shim_tile_pool col).
Proof.
  intros s s' o H. unfold shim_tile_pool in H.
  destruct (if col <? 0 then None else _); injection H; intros; subst; reflexivity.
Qed.
Lemma keeps_aie_tile_pool {B} (proj : Aie -> B) col row : keeps proj (aie_tile_pool col row).
Proof.
  intros s s' o H. unfold aie_tile_pool in H.
  destruct (if (col <? 0) || (row <? 0) then None else _);
    injection H; intros; subst; reflexivity.
Qed.

#[export] Hint Resolve keeps_emit_records keeps_emit_dma keeps_emit_resources
  keeps_put_shim_tile_pool_records keeps_put_aie_tile_pool_records
  keeps_shim_tile_pool keeps_aie_tile_pool : keeps.

Ltac keeps_tac :=
  repeat (intros;
          match goal with
          | |- keeps _ (bind _ _) => apply keeps_bind
          | |- keeps _ (match ?x with _ => _ end) => destruct x
          | |- keeps _ (if ?x then _ else _) => destruct x
          | |- keeps _ (release_pl_counter _ _ _) => unfold release_pl_counter
          | |- keeps _ (release_core_counter _ _ _) => unfold release_core_counter
          | |- keeps _ (release_pl_port _ _ _) => unfold release_pl_port
          | |- keeps _ _ => solve [eauto with keeps]
          end).

Lemma keeps_stop_resources_records phdl l : keeps eventRecords (stop_resources phdl l).
Proof.
  induction l as [|ar l IH]; simpl; [auto with keeps|].
  apply keeps_bind; [|auto]. unfold stop_resource. keeps_tac.
Qed.

Lemma keeps_stop_profiling_records phdl : keeps eventRecords (stop_profiling phdl).
Proof.
  unfold stop_profiling. apply keeps_bind; [auto with keeps|]. intros recs.
  destruct (_ <? _); [|auto with keeps].
  destruct (record_at recs phdl); [|auto with keeps].
  destruct (0 <=? _); auto using keeps_stop_resources_records with keeps.
Qed.

Lemma keeps_read_profiling_records phdl : keeps eventRecords (read_profiling phdl).
Proof. unfold read_profiling. keeps_tac. Qed.

(** ** Port lookups *)

Lemma find_none_forall {A} (f : A -> bool) (l : list A) :
  (forall x, In x l -> f x = false) -> List.find f l = None.
Proof.
  induction l as [|x l IH]; simpl; intros H; [reflexivity|].
  rewrite H by auto. apply IH. auto.
Qed.

Lemma find_present {A} (f : A -> bool) (l : list A) x :
  In x l -> f x = true -> exists y, List.find f l = Some y.
Proof.
  intros Hin Hf. destruct (List.find f l) as [y|] eqn:E; [eauto|].
  rewrite (find_none _ _ E x Hin) in Hf. discriminate.
Qed.

Lemma find_gmio_present name (l : list gmio_type) :
  (exists g, In g l /\ gmio_name g = name) -> exists g, find_gmio name l = Some g.
Proof.
  intros [g [Hin Hn]]. apply (find_present _ _ g Hin). subst. apply String.eqb_refl.
Qed.

Lemma find_gmio_absent name (l : list gmio_type) :
  (forall g, In g l -> gmio_name g <> name) -> find_gmio name l = None.
Proof.
  intros H. apply find_none_forall. intros g Hin. apply String.eqb_neq. auto.
Qed.

Lemma find_plio_present name (l : list plio_type) :
  (exists p, In p l /\ (plio_name p = name \/ plio_logical_name p = name)) ->
  exists p, find_plio name l = Some p.
Proof.
  intros [p [Hin [Hn|Hn]]]; unfold find_plio.
  - destruct (find_present (fun p => String.eqb (plio_name p) name) l p Hin)
      as [q Eq]; [subst; apply String.eqb_refl|].
    rewrite Eq. eauto.
  - destruct (List.find (fun p => String.eqb (plio_name p) name) l); [eauto|].
    apply (find_present _ _ p Hin). subst. apply String.eqb_refl.
Qed.

Lemma find_plio_absent name (l : list plio_type) :
  (forall p, In p l -> plio_name p <> name /\ plio_logical_name p <> name) ->
  find_plio name l = None.
Proof.
  intros H. unfold find_plio.
  rewrite !find_none_forall; [reflexivity| |];
    intros p Hin; apply String.eqb_neq; apply H; exact Hin.
Qed.

(** ** Handles *)

Lemma to_size_t_nonneg x : 0 <= x < 2 ^ 64 -> to_size_t x = x.
Proof. intros H. unfold to_size_t. apply Z.mod_small. exact H. Qed.

Lemma to_size_t_neg x : - 2 ^ 64 <= x < 0 -> to_size_t x = x + 2 ^ 64.
Proof.
  intros H. unfold to_size_t. rewrite <- (Z_mod_plus_full x 1).
  apply Z.mod_small. lia.
Qed.

Lemma to_int_small x : 0 <= x < 2 ^ 31 -> to_int x = x.
Proof.
  intros H. unfold to_int. rewrite Z.mod_small by lia.
  destruct (x <? 2 ^ 31) eqn:E; [reflexivity|]. apply Z.ltb_ge in E. lia.
Qed.

(** ** Claims on all inputs *)

(** C10.  [read_profiling] does not check its handle: for a negative handle
    or one at or beyond the number of sessions, [eventRecords[phdl]] is an
    out-of-range index, undefined behaviour, neither a typed error nor a
    no-op. *)
Theorem read_profiling_unchecked_handle (s : Aie) (phdl : Z) :
  - 2 ^ 31 <= phdl < 2 ^ 31 ->
  Z.of_nat (List.length (eventRecords s)) < 2 ^ 63 ->
  phdl < 0 \/ Z.of_nat (List.length (eventRecords s)) <= phdl ->
  read_profiling phdl s = (s, Undef).
Proof.
  intros Hr Hl Hout. unfold read_profiling, bind, gets, record_at.
  rewrite lookup_ge_None_2; [reflexivity|].
  destruct (Z_lt_le_dec phdl 0).
  - rewrite to_size_t_neg by lia. lia.
  - rewrite to_size_t_nonneg by lia. lia.
Qed.

(** C7.  A port name present in both the GMIO and the PLIO tables makes
    [start_profiling] fail with [-EINVAL] and leaves the state as it was: no
    counter or event port is requested, nothing is recorded. *)
Theorem start_profiling_ambiguous_port (s : Aie) (option : Z)
    (port1_name port2_name : string) (value : Z) :
  (exists g, In g (gmios s) /\ gmio_name g = port1_name) ->
  (exists p, In p (plios s) /\
             (plio_name p = port1_name \/ plio_logical_name p = port1_name)) ->
  exists msg, start_profiling option port1_name port2_name value s
              = (s, Raise (xrt_error (- EINVAL) msg)).
Proof.
  intros Hg Hp.
  destruct (find_gmio_present _ _ Hg) as [g Eg].
  destruct (find_plio_present _ _ Hp) as [p Ep].
  unfold start_profiling, bind, gets, throw.
  destruct (devInst s); [|eexists; reflexivity].
  destruct (option =? IO_STREAM_RUNNING_EVENT_COUNT); [|eexists; reflexivity].
  cbn -[find_gmio find_plio]. rewrite Eg, Ep. eexists; reflexivity.
Qed.

(** C6, as amended.  A port name absent from the GMIO table makes
    [sync_bo], [sync_bo_nb] and [wait_gmio] fail with [-EINVAL]; absent from
    both tables, [start_profiling] fails with [-EINVAL] too.  No state
    changes.  [-EINVAL] is also the code of the invalid-argument failures. *)
Theorem port_absent_einval_unchanged (s : Aie) (bo : xrtBufferHandle) (name : string)
    (dir : xclBOSyncDirection) (size offset option : Z) (port2_name : string) (value : Z) :
  (forall g, In g (gmios s) -> gmio_name g <> name) ->
  (exists msg, sync_bo bo name dir size offset s = (s, Raise (xrt_error (- EINVAL) msg))) /\
  (exists msg, sync_bo_nb bo name dir size offset s = (s, Raise (xrt_error (- EINVAL) msg))) /\
  (exists msg, wait_gmio name s = (s, Raise (xrt_error (- EINVAL) msg))) /\
  ((forall p, In p (plios s) -> plio_name p <> name /\ plio_logical_name p <> name) ->
   exists msg, start_profiling option name port2_name value s
               = (s, Raise (xrt_error (- EINVAL) msg))).
Proof.
  intros Hg. pose proof (find_gmio_absent _ _ Hg) as Eg.
  unfold sync_bo, sync_bo_nb, wait_gmio, start_profiling, bind, gets, throw.
  destruct (devInst s); [|repeat split; eexists; reflexivity].
  cbn -[find_gmio find_plio]. rewrite !Eg. repeat split; try (eexists; reflexivity).
  intros Hp.
  destruct (option =? IO_STREAM_RUNNING_EVENT_COUNT); cbn -[find_gmio find_plio];
    [rewrite ?Eg, (find_plio_absent _ _ Hp)|]; eexists; reflexivity.
Qed.

(** ** The resource pool *)

Definition grantable (l : list (option Z)) : bool :=
  match first_free l with Some _ => true | None => false end.

Lemma first_free_lookup (l : list (option Z)) i : first_free l = Some i -> l !! i = Some None.
Proof.
  revert i. induction l as [|[x|] l IH]; intros i H; simpl in H; try discriminate.
  - destruct (first_free l) as [j|] eqn:E; simpl in H; [|discriminate].
    injection H as <-. simpl. apply IH. reflexivity.
  - injection H as <-. reflexivity.
Qed.

Lemma release_request_slot (l : list (option Z)) owner l' id :
  request_slot l owner = (l', id) -> 0 <= id -> release_slot l' id = l.
Proof.
  unfold request_slot, release_slot. destruct (first_free l) as [i|] eqn:E.
  - intros H Hid. injection H as <- <-. pose proof (first_free_lookup _ _ E) as Hl.
    destruct (Z.of_nat i <? 0) eqn:Ei; [lia|]. rewrite Nat2Z.id.
    rewrite list_insert_insert_eq. apply list_insert_id. exact Hl.
  - intros H Hid. injection H as <- <-. lia.
Qed.

Lemma request_slot_sign (l : list (option Z)) owner l' id :
  request_slot l owner = (l', id) ->
  (grantable l = true /\ 0 <= id) \/ (grantable l = false /\ id = -1 /\ l' = l).
Proof.
  unfold request_slot, grantable. destruct (first_free l); intros H; injection H as <- <-.
  - left. split; [reflexivity|lia].
  - right. auto.
Qed.

Lemma requestStreamEventPort_cases m owner m' id :
  requestStreamEventPort m owner = (m', id) ->
  (grantable (event_ports m) = true /\ 0 <= id /\ releaseStreamEventPort m' id = m) \/
  (grantable (event_ports m) = false /\ id = -1 /\ m' = m).
Proof.
  destruct m as [pc ep]. unfold requestStreamEventPort. simpl.
  destruct (request_slot ep owner) as [l r] eqn:E. intros H. injection H as <- <-.
  destruct (request_slot_sign _ _ _ _ E) as [[G P]|[G [P L]]].
  - left. repeat split; try assumption. unfold releaseStreamEventPort. simpl.
    rewrite (release_request_slot _ _ _ _ E P). reflexivity.
  - right. subst. auto.
Qed.

Lemma requestPerformanceCounter_cases m owner m' id :
  requestPerformanceCounter m owner = (m', id) ->
  (grantable (perf_counters m) = true /\ 0 <= id /\ releasePerformanceCounter m' id = m) \/
  (grantable (perf_counters m) = false /\ id = -1 /\ m' = m).
Proof.
  destruct m as [pc ep]. unfold requestPerformanceCounter. simpl.
  destruct (request_slot pc owner) as [l r] eqn:E. intros H. injection H as <- <-.
  destruct (request_slot_sign _ _ _ _ E) as [[G P]|[G [P L]]].
  - left. repeat split; try assumption. unfold releasePerformanceCounter. simpl.
    rewrite (release_request_slot _ _ _ _ E P). reflexivity.
  - right. subst. auto.
Qed.

(** Runs a computation on an abstract state by unfolding the monad and
    splitting on every test. *)
Ltac run_monad :=
  repeat (first [progress (unfold bind, gets, shim_tile_pool, put_shim_tile_pool, modify,
                             emit, ok, throw, undef, release_pl_counter, release_pl_port
                           in *)
                | match goal with
                  | Hc : chan_lookup ?a ?c ?h = Some _, H : context [chan_lookup ?a ?c ?h] |- _ =>
                      rewrite Hc in H
                  | Hc : chan_lookup ?a ?c ?h = Some _ |- context [chan_lookup ?a ?c ?h] =>
                      rewrite Hc
                  | Hc : pend_bds ?c = _, H : pend_bds ?c = _ |- _ =>
                      rewrite Hc in H
                  end
                | case_match]; simplify_eq/=).

Lemma acquire_and_record_records option loc mode sid s s' o :
  acquire_and_record option loc mode sid s = (s', o) ->
  (exists r, o = Ret (to_int (Z.of_nat (List.length (eventRecords s)))) /\
             eventRecords s' = eventRecords s ++ [r]) \/
  ((forall h, o <> Ret h) /\ eventRecords s' = eventRecords s).
Proof.
  unfold acquire_and_record. intros H. run_monad.
  all: first [left; eexists; split; reflexivity
             | right; split; [intros ? ?; discriminate | try reflexivity]].
Qed.

Lemma start_profiling_records option p1 p2 value s s' o :
  start_profiling option p1 p2 value s = (s', o) ->
  (exists r, o = Ret (to_int (Z.of_nat (List.length (eventRecords s)))) /\
             eventRecords s' = eventRecords s ++ [r]) \/
  ((forall h, o <> Ret h) /\ eventRecords s' = eventRecords s).
Proof.
  unfold start_profiling, bind, gets, throw.
  destruct (devInst s); cbn -[find_gmio find_plio acquire_and_record].
  2: { intros H; injection H as <- <-. right. split; [intros ? ?; discriminate|reflexivity]. }
  destruct (option =? IO_STREAM_RUNNING_EVENT_COUNT); cbn -[find_gmio find_plio acquire_and_record].
  2: { intros H; injection H as <- <-. right. split; [intros ? ?; discriminate|reflexivity]. }
  destruct (find_gmio p1 (gmios s)), (find_plio p1 (plios s));
    try apply acquire_and_record_records;
    intros H; injection H as <- <-; right; split; (intros ? ?; discriminate) || reflexivity.
Qed.

(** A caller issuing profiling calls in order and catching [xrt_core::error];
    it stops at undefined behaviour.  The handles of the successful starts
    are collected. *)
Inductive prof_call :=
| CallStart (option : Z) (port1_name port2_name : string) (value : Z)
| CallStop (phdl : Z)
| CallRead (phdl : Z).

Definition continue_after {A} (r : outcome A) : bool :=
  match r with Ret _ | Raise _ => true | Undef | Spin => false end.

Fixpoint run_calls (cs : list prof_call) (s : Aie) : Aie * list Z :=
  match cs with
  | [] => (s, [])
  | CallStart option p1 p2 value :: cs' =>
      let (s1, r) := start_profiling option p1 p2 value s in
      match r with
      | Ret h => let (s2, hs) := run_calls cs' s1 in (s2, h :: hs)
      | Raise _ => run_calls cs' s1
      | _ => (s1, [])
      end
  | CallStop phdl :: cs' =>
      let (s1, r) := stop_profiling phdl s in
      if continue_after r then run_calls cs' s1 else (s1, [])
  | CallRead phdl :: cs' =>
      let (s1, r) := read_profiling phdl s in
      if continue_after r then run_calls cs' s1 else (s1, [])
  end.

Lemma run_calls_handles cs s s' hs :
  run_calls cs s = (s', hs) ->
  (exists l, eventRecords s' = eventRecords s ++ l) /\
  (Z.of_nat (List.length (eventRecords s')) < 2 ^ 31 ->
   NoDup hs /\
   Forall (fun h => Z.of_nat (List.length (eventRecords s)) <= h
                    < Z.of_nat (List.length (eventRecords s'))) hs).
Proof.
  revert s s' hs. induction cs as [|c cs IH]; intros s s' hs H; simpl in H.
  - injection H as <- <-. split; [exists []; rewrite app_nil_r; reflexivity|].
    intros _. split; constructor.
  - destruct c as [option p1 p2 value|phdl|phdl].
    + destruct (start_profiling option p1 p2 value s) as [s1 r] eqn:E.
      destruct (start_profiling_records _ _ _ _ _ _ _ E) as [[rec [Hr Hs1]]|[Hr Hs1]].
      * subst r. destruct (run_calls cs s1) as [s2 hs2] eqn:E2. injection H as <- <-.
        destruct (IH _ _ _ E2) as [[l Hl] Hb]. rewrite Hs1 in Hl.
        split; [exists ([rec] ++ l); rewrite Hl, app_assoc; reflexivity|].
        intros Hlen. rewrite Hl in Hlen. rewrite !length_app in Hlen. simpl in Hlen.
        destruct (Hb ltac:(rewrite Hl, !length_app; simpl; lia)) as [Hnd Hf].
        rewrite Hs1, length_app in Hf. simpl in Hf.
        rewrite to_int_small by lia.
        split.
        -- constructor; [|exact Hnd]. intros Hin.
           rewrite Forall_forall in Hf.
           specialize (Hf _ Hin). lia.
        -- constructor; [rewrite Hl, !length_app; simpl; lia|].
           eapply Forall_impl; [exact Hf|]. simpl. intros h Hh.
           rewrite Hl, !length_app in *. simpl in *. lia.
      * destruct r; [exfalso; eapply Hr; reflexivity| |injection H as <- <-..].
        -- destruct (IH _ _ _ H) as [[l Hl] Hb]. rewrite Hs1 in Hl, Hb.
           split; [exists l; exact Hl|]. exact Hb.
        -- split; [exists []; rewrite app_nil_r; exact Hs1|]. intros _. split; constructor.
        -- split; [exists []; rewrite app_nil_r; exact Hs1|]. intros _. split; constructor.
    + destruct (stop_profiling phdl s) as [s1 r] eqn:E.
      pose proof (keeps_stop_profiling_records _ _ _ _ E) as Hs1.
      destruct (continue_after r).
      * destruct (IH _ _ _ H) as [[l Hl] Hb]. rewrite Hs1 in Hl, Hb.
        split; [exists l; exact Hl|exact Hb].
      * injection H as <- <-. split; [exists []; rewrite app_nil_r; exact Hs1|].
        intros _. split; constructor.
    + destruct (read_profiling phdl s) as [s1 r] eqn:E.
      pose proof (keeps_read_profiling_records _ _ _ _ E) as Hs1.
      destruct (continue_after r).
      * destruct (IH _ _ _ H) as [[l Hl] Hb]. rewrite Hs1 in Hl, Hb.
        split; [exists l; exact Hl|exact Hb].
      * injection H as <- <-. split; [exists []; rewrite app_nil_r; exact Hs1|].
        intros _. split; constructor.
Qed.
Lemma acquire_and_record_partial option col mode sid s m s' o :
  0 <= col -> shim_tiles (resources s) !! Z.to_nat col = Some m ->
  grantable (event_ports m) <> grantable (perf_counters m) ->
  acquire_and_record option (TileLoc col 0) mode sid s = (s', o) ->
  (exists msg, o = Raise (xrt_error (- EAGAIN) msg)) /\
  resources s' = resources s /\ eventRecords s' = eventRecords s.
Proof.
  intros Hc Hm Hg. pose proof (lookup_lt_Some _ _ _ Hm) as Hlt.
  unfold acquire_and_record. intros H. run_monad.
  all: try lia.
  all: repeat match goal with
         | Hx : <[_:=_]> _ !! _ = _ |- _ =>
             rewrite list_lookup_insert_eq in Hx by (rewrite ?length_insert; lia)
         end; simplify_eq.
  all: match goal with Hx : requestStreamEventPort _ _ = _ |- _ =>
         destruct (requestStreamEventPort_cases _ _ _ _ Hx) as [[G1 [P1 R1]]|[G1 [P1 R1]]] end.
  all: match goal with Hx : requestPerformanceCounter _ _ = _ |- _ =>
         destruct (requestPerformanceCounter_cases _ _ _ _ Hx) as [[G2 [P2 R2]]|[G2 [P2 R2]]] end.
  all: subst; simpl in *; try congruence; try lia.
  all: split; [eexists; reflexivity|]; split; [|reflexivity].
  all: rewrite !list_insert_insert_eq.
  all: match goal with Hx : shim_tiles _ !! _ = Some _ |- _ =>
         rewrite (list_insert_id _ _ _ Hx) end.
  all: destruct (resources a); reflexivity.
Qed.

(** The column [start_profiling] monitors for a port name, when the name
    resolves to exactly one table. *)
Definition port_column (gs : list gmio_type) (ps : list plio_type) (name : string) : option Z :=
  match find_gmio name gs, find_plio name ps with
  | Some g, None => Some (gmio_shim_col g)
  | None, Some p => Some (plio_shim_col p)
  | _, _ => None
  end.

(** C4.  When exactly one of the two resources can be granted (the stream
    event port but not the counter, or the reverse), [start_profiling]
    releases the granted one and fails with [-EAGAIN]; the resource pool and
    the session list are as before the call. *)
Theorem start_profiling_partial_grant_unwound (s : Aie) (option : Z)
    (port1_name port2_name : string) (value col : Z) (m : ModulePool) (s' : Aie)
    (o : outcome Z) :
  devInst s = true ->
  option = IO_STREAM_RUNNING_EVENT_COUNT ->
  port_column (gmios s) (plios s) port1_name = Some col ->
  0 <= col ->
  shim_tiles (resources s) !! Z.to_nat col = Some m ->
  grantable (event_ports m) <> grantable (perf_counters m) ->
  start_profiling option port1_name port2_name value s = (s', o) ->
  (exists msg, o = Raise (xrt_error (- EAGAIN) msg)) /\
  resources s' = resources s /\ eventRecords s' = eventRecords s.
Proof.
  intros Hd Ho Hp Hc Hm Hg. unfold port_column in Hp.
  unfold start_profiling, bind, gets. rewrite Hd, Ho, Z.eqb_refl.
  cbn -[find_gmio find_plio acquire_and_record].
  destruct (find_gmio port1_name (gmios s)), (find_plio port1_name (plios s));
    try discriminate; injection Hp as <-; apply acquire_and_record_partial with m; assumption.
Qed.

(** C9.  A successful start returns the length of the session list before
    the call and appends its record at that index; stop never removes or
    changes a record; over any sequence of calls the list only grows and the
    handles returned are pairwise distinct. *)
Theorem session_handle_is_insertion_index :
  (forall s option p1 p2 value s' h,
     Z.of_nat (List.length (eventRecords s)) < 2 ^ 31 ->
     start_profiling option p1 p2 value s = (s', Ret h) ->
     h = Z.of_nat (List.length (eventRecords s)) /\
     exists r, eventRecords s' = eventRecords s ++ [r] /\
               eventRecords s' !! Z.to_nat h = Some r) /\
  (forall s phdl s' o, stop_profiling phdl s = (s', o) -> eventRecords s' = eventRecords s) /\
  (forall cs s s' hs, run_calls cs s = (s', hs) ->
     (exists l, eventRecords s' = eventRecords s ++ l) /\
     (Z.of_nat (List.length (eventRecords s')) < 2 ^ 31 -> NoDup hs)).
Proof.
  split; [|split].
  - intros s option p1 p2 value s' h Hlen H.
    destruct (start_profiling_records _ _ _ _ _ _ _ H) as [[r [Hr Hs]]|[Hr _]].
    + injection Hr as ->. rewrite to_int_small by lia. split; [reflexivity|].
      exists r. split; [exact Hs|]. rewrite Hs, Nat2Z.id.
      apply list_lookup_middle. reflexivity.
    + exfalso. eapply Hr. reflexivity.
  - intros s phdl s' o H. exact (keeps_stop_profiling_records _ _ _ _ H).
  - intros cs s s' hs H. destruct (run_calls_handles _ _ _ _ H) as [Hp Hb].
    split; [exact Hp|]. intros Hl. apply Hb. exact Hl.
Qed.

(** C8, as amended.  For a recorded handle, [read_profiling] fails with
    [-EAGAIN] and returns no value when the first recorded resource is not a
    performance counter, and otherwise returns the counter value read from
    the hardware (its 32 bits), without error. *)
Theorem read_profiling_first_resource (s : Aie) (phdl : Z) (r : EventRecord)
    (ar : AcquiredResource) (rest : list AcquiredResource) :
  0 <= phdl < 2 ^ 31 ->
  eventRecords s !! Z.to_nat phdl = Some r ->
  acquiredResources r = ar :: rest ->
  (res_resource ar <> performance_counter ->
   exists msg, read_profiling phdl s = (s, Raise (xrt_error (- EAGAIN) msg))) /\
  (res_resource ar = performance_counter ->
   read_profiling phdl s =
     (set_trace s (trace s ++ [EvPerfCounterGet (res_loc ar) (res_module ar) (res_id ar)]),
      Ret (hw_counter (hw s) (res_loc ar) (res_module ar) (res_id ar) mod 2 ^ 32))).
Proof.
  intros Hp Hr Ha. unfold read_profiling, bind, gets, record_at.
  rewrite to_size_t_nonneg by lia. rewrite Hr, Ha.
  split; intros Hk.
  - destruct (res_resource ar); try (exfalso; apply Hk; reflexivity); eexists; reflexivity.
  - rewrite Hk. reflexivity.
Qed.

(** ** Channel lookups *)

Lemma list_lookup_insert_same {A} (l : list A) i x :
  <[i:=x]> l !! i = (fun _ => x) <$> l !! i.
Proof.
  destruct (decide (i < List.length l)%nat) as [Hi|Hi].
  - rewrite list_lookup_insert_eq by exact Hi.
    destruct (lookup_lt_is_Some_2 l i Hi) as [y Hy]. rewrite Hy. reflexivity.
  - rewrite list_insert_ge by lia. rewrite lookup_ge_None_2 by lia. reflexivity.
Qed.

Lemma chan_lookup_update (s : Aie) col chan c :
  chan_lookup (chan_update s col chan c) col chan = (fun _ => c) <$> chan_lookup s col chan.
Proof.
  unfold chan_lookup, chan_update. destruct ((col <? 0) || (chan <? 0)); [reflexivity|].
  simpl. rewrite list_lookup_alter_eq.
  destruct (shim_dma s !! Z.to_nat col) as [d|]; simpl; [|reflexivity].
  apply list_lookup_insert_same.
Qed.

Lemma chan_lookup_set_trace (s : Aie) t col chan :
  chan_lookup (set_trace s t) col chan = chan_lookup s col chan.
Proof. reflexivity. Qed.

Lemma chan_lookup_set_hw (s : Aie) h col chan :
  chan_lookup (set_hw s h) col chan = chan_lookup s col chan.
Proof. reflexivity. Qed.

(** Runs a channel operation on an abstract state. *)
Ltac run_dma :=
  repeat (first [progress (unfold bind, gets, modify, emit, ok, throw, undef, spin, errno,
                             get_chan, put_chan, idle_front, idle_pop, idle_push,
                             pend_front, pend_pop, pend_push, ioctl_detach, clear_bd,
                             drain_one in *)
                | progress (rewrite ?chan_lookup_update, ?chan_lookup_set_trace,
                              ?chan_lookup_set_hw in *)
                | match goal with
                  | Hc : chan_lookup ?a ?c ?h = Some _, H : context [chan_lookup ?a ?c ?h] |- _ =>
                      rewrite Hc in H
                  | Hc : chan_lookup ?a ?c ?h = Some _ |- context [chan_lookup ?a ?c ?h] =>
                      rewrite Hc
                  | Hc : pend_bds ?c = _, H : pend_bds ?c = _ |- _ =>
                      rewrite Hc in H
                  end
                | case_match]; simplify_eq/=).

Lemma drain_one_ok col chan (s s' : Aie) :
  drain_one col chan s = (s', Ret tt) ->
  exists c b rest,
    chan_lookup s col chan = Some c /\ pend_bds c = b :: rest /\
    chan_lookup s' col chan = Some {| idle_bds := idle_bds c ++ [cleared b]; pend_bds := rest |} /\
    trace s' = trace s ++ release_events b /\ hw s' = hw s.
Proof.
  intros H. run_dma. exists a2, b, l.
  rewrite <- app_assoc. repeat split; auto.
Qed.

Lemma releases_app t1 t2 : releases (t1 ++ t2) = releases t1 ++ releases t2.
Proof. unfold releases. apply filter_app. Qed.

Lemma releases_quiet e : is_release e = false -> releases [e] = [].
Proof. intros H. unfold releases. cbn. rewrite H. reflexivity. Qed.

Lemma releases_release_events b : releases (release_events b) = release_events b.
Proof. reflexivity. Qed.

Lemma releases_flat_map l :
  releases (flat_map release_events l) = flat_map release_events l.
Proof.
  induction l as [|b l IH]; [reflexivity|].
  change (flat_map release_events (b :: l)) with (release_events b ++ flat_map release_events l).
  rewrite releases_app, IH. reflexivity.
Qed.

Lemma chan_lookup_dma (s s' : Aie) col chan :
  shim_dma s' = shim_dma s -> chan_lookup s' col chan = chan_lookup s col chan.
Proof. intros H. unfold chan_lookup. rewrite H. reflexivity. Qed.

Lemma drain_completed_ok n col chan (s s' : Aie) c :
  chan_lookup s col chan = Some c ->
  drain_completed n col chan s = (s', Ret tt) ->
  (n <= length (pend_bds c))%nat /\
  chan_lookup s' col chan =
    Some {| idle_bds := idle_bds c ++ map cleared (take n (pend_bds c));
            pend_bds := drop n (pend_bds c) |} /\
  trace s' = trace s ++ flat_map release_events (take n (pend_bds c)) /\
  hw s' = hw s.
Proof.
  revert s c. induction n as [|n IH]; intros s c Hc H; simpl in H.
  - injection H as <-. rewrite Hc. destruct c. simpl.
    rewrite !app_nil_r. repeat split; auto; lia.
  - apply bind_inv in H as (s1 & [] & H1 & H2).
    apply drain_one_ok in H1 as (c0 & b & rest & Hc0 & Hp & Hc1 & Ht & Hh).
    rewrite Hc in Hc0. injection Hc0 as <-.
    destruct (IH _ _ Hc1 H2) as (Hn & Hc' & Ht' & Hh'). simpl in *.
    rewrite Hp. simpl. rewrite Hc', Ht', Ht, Hh', Hh.
    repeat split; [lia| |].
    + rewrite <- app_assoc. reflexivity.
    + rewrite <- app_assoc. reflexivity.
Qed.

(** A computation that, when it succeeds, leaves the shim DMA state alone and
    records no release of a slot. *)
Definition quiet {A} (m : M A) : Prop :=
  forall s s' a, m s = (s', Ret a) ->
  shim_dma s' = shim_dma s /\ releases (trace s') = releases (trace s).

Ltac quiet_tac :=
  let H := fresh "H" in
  intros ? ? ? H; run_dma; split;
  [reflexivity
  | rewrite ?releases_app; rewrite ?releases_quiet by reflexivity;
    rewrite ?app_nil_r; reflexivity].

Lemma quiet_bind {A B} (m : M A) (f : A -> M B) :
  quiet m -> (forall a, quiet (f a)) -> quiet (bind m f).
Proof.
  intros Hm Hf s s'' b H. apply bind_inv in H as (s' & a & H1 & H2).
  destruct (Hm _ _ _ H1) as [E1 R1]. destruct (Hf _ _ _ _ H2) as [E2 R2].
  rewrite E2, R2. auto.
Qed.

Lemma quiet_pending_count col pchan gmdir :
  quiet (XAie_DmaGetPendingBdCount col pchan gmdir).
Proof. unfold XAie_DmaGetPendingBdCount. quiet_tac. Qed.

Lemma quiet_wait_for_done col pchan gmdir timeout :
  quiet (XAie_DmaWaitForDone col pchan gmdir timeout).
Proof. unfold XAie_DmaWaitForDone. quiet_tac. Qed.

Lemma quiet_wait_done fuel col pchan gmdir timeout :
  quiet (wait_done fuel col pchan gmdir timeout).
Proof.
  induction fuel as [|fuel IH]; simpl.
  - intros s s' a H. discriminate.
  - apply quiet_bind; [apply quiet_wait_for_done|]. intros [].
    + intros s s' a H. injection H as ->. auto.
    + exact IH.
Qed.

Lemma quiet_prepare_bd bd bo : quiet (prepare_bd bd bo).
Proof. unfold prepare_bd, ioctl_attach, mmap. quiet_tac. Qed.

Lemma prepare_bd_num bd bo (s s' : Aie) bd' :
  prepare_bd bd bo s = (s', Ret bd') -> bd_num bd' = bd_num bd.
Proof. unfold prepare_bd, ioctl_attach, mmap. intros H. run_dma. reflexivity. Qed.

Lemma quiet_emit e : is_release e = false -> quiet (emit e).
Proof.
  intros He s s' a H. unfold emit, modify in H. injection H as <- _. simpl.
  rewrite releases_app, releases_quiet, app_nil_r by exact He. auto.
Qed.

Lemma quiet_emit_run e (s s' : Aie) a :
  emit e s = (s', Ret a) -> is_release e = false ->
  shim_dma s' = shim_dma s /\ releases (trace s') = releases (trace s).
Proof. intros H He. exact (quiet_emit e He s s' a H). Qed.

Lemma take_add_drop {A} (l : list A) m k :
  take (m + k) l = take m l ++ take k (drop m l).
Proof.
  revert l. induction m as [|m IH]; intros [|x l]; simpl; auto.
  - destruct k; reflexivity.
  - rewrite IH. reflexivity.
Qed.

Lemma get_chan_ok col chan (s s' : Aie) c :
  get_chan col chan s = (s', Ret c) -> s' = s /\ chan_lookup s col chan = Some c.
Proof. unfold get_chan. intros H. run_dma. auto. Qed.

Lemma wait_free_bd_ok fuel col chan pchan gmdir maxq (s s' : Aie) :
  wait_free_bd fuel col chan pchan gmdir maxq s = (s', Ret tt) ->
  exists c k,
    chan_lookup s col chan = Some c /\ (k <= length (pend_bds c))%nat /\
    chan_lookup s' col chan =
      Some {| idle_bds := idle_bds c ++ map cleared (take k (pend_bds c));
              pend_bds := drop k (pend_bds c) |} /\
    releases (trace s') = releases (trace s) ++ flat_map release_events (take k (pend_bds c)).
Proof.
  revert s. induction fuel as [|fuel IH]; intros s H; simpl in H; [discriminate|].
  apply bind_inv in H as (s1 & c & H1 & H).
  apply get_chan_ok in H1 as [-> Hc].
  destruct (idle_bds c) as [|bd0 idle] eqn:Ei.
  - apply bind_inv in H as (s2 & npend & H2 & H).
    destruct (quiet_pending_count _ _ _ _ _ _ H2) as [D2 R2].
    assert (Hc2 : chan_lookup s2 col chan = Some c)
      by (rewrite (chan_lookup_dma s s2) by exact D2; exact Hc).
    apply bind_inv in H as (s3 & [] & H3 & H).
    destruct (drain_completed_ok _ _ _ _ _ _ Hc2 H3) as (Hm & Hc3 & Ht3 & _).
    destruct (IH _ H) as (c' & k & Hc' & Hk & Hc'' & R).
    rewrite Hc3 in Hc'. injection Hc' as <-. simpl in *.
    exists c, (Z.to_nat (maxq - npend) + k)%nat.
    rewrite length_drop in Hk.
    split; [exact Hc|]. split; [lia|]. split.
    + rewrite Hc'', drop_drop, take_add_drop, map_app, app_assoc. reflexivity.
    + rewrite R, Ht3, releases_app, R2, releases_flat_map, take_add_drop, flat_map_app.
      rewrite app_assoc. reflexivity.
  - injection H as <-. exists c, 0%nat. simpl.
    split; [exact Hc|]. split; [lia|]. rewrite !app_nil_r. split; [|reflexivity].
    rewrite Hc. destruct c. reflexivity.
Qed.

Lemma put_chan_ok col chan c (s s' : Aie) u :
  put_chan col chan c s = (s', Ret u) -> s' = chan_update s col chan c.
Proof. unfold put_chan, modify. intros H. congruence. Qed.

Lemma trace_chan_update (s : Aie) col chan c : trace (chan_update s col chan c) = trace s.
Proof. reflexivity. Qed.

Lemma drain_pending_ok fuel col chan (s s' : Aie) c :
  chan_lookup s col chan = Some c ->
  drain_pending fuel col chan s = (s', Ret tt) ->
  chan_lookup s' col chan =
    Some {| idle_bds := idle_bds c ++ map cleared (pend_bds c); pend_bds := [] |} /\
  releases (trace s') = releases (trace s) ++ flat_map release_events (pend_bds c).
Proof.
  revert s c. induction fuel as [|fuel IH]; intros s c Hc H; simpl in H; [discriminate|].
  apply bind_inv in H as (s1 & c1 & H1 & H).
  apply get_chan_ok in H1 as [-> Hc1]. rewrite Hc in Hc1. injection Hc1 as <-.
  destruct (pend_bds c) as [|b rest] eqn:Ep.
  - injection H as <-. simpl. rewrite !app_nil_r, Hc. destruct c; simpl in *; subst. auto.
  - apply bind_inv in H as (s2 & [] & H2 & H).
    apply drain_one_ok in H2 as (c0 & b' & rest' & Hc0 & Hp & Hc2 & Ht & _).
    rewrite Hc in Hc0. injection Hc0 as <-. rewrite Ep in Hp. injection Hp as <- <-.
    destruct (IH _ _ Hc2 H) as [Hc' R]. simpl in *. rewrite Hc', R, Ht.
    split.
    + rewrite <- app_assoc. reflexivity.
    + rewrite releases_app, <- app_assoc. reflexivity.
Qed.

Lemma wait_sync_bo_ok col chan gmdir timeout (s s' : Aie) :
  wait_sync_bo col chan gmdir timeout s = (s', Ret tt) ->
  exists c,
    chan_lookup s col chan = Some c /\
    chan_lookup s' col chan =
      Some {| idle_bds := idle_bds c ++ map cleared (pend_bds c); pend_bds := [] |} /\
    releases (trace s') = releases (trace s) ++ flat_map release_events (pend_bds c).
Proof.
  unfold wait_sync_bo. intros H.
  apply bind_inv in H as (s1 & n & H1 & H). unfold done_answers, gets in H1.
  injection H1 as <- _.
  apply bind_inv in H as (s2 & [] & H2 & H).
  destruct (quiet_wait_done _ _ _ _ _ _ _ _ H2) as [D2 R2].
  apply bind_inv in H as (s3 & k & H3 & H). unfold pending_count in H3.
  apply bind_inv in H3 as (s4 & c & H4 & H3). apply get_chan_ok in H4 as [-> Hc].
  unfold ok in H3. injection H3 as <- _.
  exists c. split; [rewrite <- (chan_lookup_dma s s2) by exact D2; exact Hc|].
  destruct (drain_pending_ok _ _ _ _ _ _ Hc H) as [Hc' R].
  rewrite R, R2. auto.
Qed.

Lemma submit_sync_bo_ok bo gmio dir size offset (s s' : Aie) :
  submit_sync_bo bo gmio dir size offset s = (s', Ret tt) ->
  exists c k bd0 idle bd,
    chan_lookup s (gmio_shim_col gmio) (gmio_channel_number gmio) = Some c /\ (k <= length (pend_bds c))%nat /\
    idle_bds c ++ map cleared (take k (pend_bds c)) = bd0 :: idle /\
    chan_lookup s' (gmio_shim_col gmio) (gmio_channel_number gmio) =
      Some {| idle_bds := idle; pend_bds := drop k (pend_bds c) ++ [bd] |} /\
    bd_num bd = bd_num bd0 /\
    releases (trace s') = releases (trace s) ++ flat_map release_events (take k (pend_bds c)).
Proof.
  unfold submit_sync_bo. intros H.
  set (col := gmio_shim_col gmio) in *. set (chan := gmio_channel_number gmio) in *.
  apply bind_inv in H as (s1 & [] & H1 & H).
  assert (s1 = s) as ->.
  { destruct dir; repeat case_match; unfold ok, throw in H1; simplify_eq/=; auto. }
  destruct (size_check_fails size); [discriminate|].
  apply bind_inv in H as (s2 & dmap & H2 & H).
  assert (s2 = s) as -> by (unfold shim_dma_at in H2; repeat case_match; simplify_eq/=; auto).
  apply bind_inv in H as (s3 & n & H3 & H). unfold npend_answers, gets in H3.
  injection H3 as <- _.
  apply bind_inv in H as (s4 & [] & H4 & H).
  destruct (wait_free_bd_ok _ _ _ _ _ _ _ _ H4) as (c & k & Hc & Hk & Hc4 & R4).
  apply bind_inv in H as (s5 & bd0 & H5 & H). unfold idle_front in H5.
  apply bind_inv in H5 as (s5' & c5 & G5 & H5). apply get_chan_ok in G5 as [-> G5].
  rewrite Hc4 in G5. injection G5 as <-. simpl in H5.
  destruct (idle_bds c ++ map cleared (take k (pend_bds c))) as [|b0 idle] eqn:Ei;
    [discriminate|].
  unfold ok in H5. injection H5 as <- <-.
  apply bind_inv in H as (s6 & [] & H6 & H). unfold idle_pop in H6.
  apply bind_inv in H6 as (s6' & c6 & G6 & H6). apply get_chan_ok in G6 as [-> G6].
  rewrite Hc4 in G6. injection G6 as <-. cbn [idle_bds pend_bds] in H6.
  apply put_chan_ok in H6 as ->.
  apply bind_inv in H as (s7 & bd & H7 & H).
  destruct (quiet_prepare_bd _ _ _ _ _ H7) as [D7 R7].
  pose proof (prepare_bd_num _ _ _ _ _ H7) as Hn.
  apply bind_inv in H as (s8 & [] & H8 & H).
  destruct (quiet_emit_run _ _ _ _ H8 eq_refl) as [D8 R8].
  apply bind_inv in H as (s9 & [] & H9 & H).
  destruct (quiet_emit_run _ _ _ _ H9 eq_refl) as [D9 R9].
  apply bind_inv in H as (s10 & [] & H10 & H).
  destruct (quiet_emit_run _ _ _ _ H10 eq_refl) as [D10 R10].
  apply bind_inv in H as (s11 & [] & H11 & H).
  destruct (quiet_emit_run _ _ _ _ H11 eq_refl) as [D11 R11].
  apply bind_inv in H as (s12 & [] & H12 & H).
  destruct (quiet_emit_run _ _ _ _ H12 eq_refl) as [D12 R12].
  unfold pend_push in H.
  apply bind_inv in H as (s13 & c13 & G13 & H). apply get_chan_ok in G13 as [-> G13].
  apply put_chan_ok in H as ->.
  assert (Hc12 : chan_lookup s12 col chan =
                   Some {| idle_bds := idle; pend_bds := drop k (pend_bds c) |}).
  { rewrite (chan_lookup_dma _ s12 col chan) by
      (rewrite D12, D11, D10, D9, D8, D7; reflexivity).
    rewrite chan_lookup_update, Hc4. reflexivity. }
  rewrite Hc12 in G13. injection G13 as <-.
  exists c, k, b0, idle, bd. repeat split; auto.
  - rewrite chan_lookup_update, Hc12. reflexivity.
  - rewrite trace_chan_update, R12, R11, R10, R9, R8, R7, trace_chan_update, R4.
    reflexivity.
Qed.

(** C5.  The pending slots of a channel form a queue drained in submission
    order.  A successful submission drains, in the busy wait, a prefix of the
    pending queue: it releases the binding of each drained slot ([munmap],
    then detach) in queue order and returns the slots to the back of the
    idle queue in that order.  It then appends the new transfer's slot at
    the back of the pending queue.  A successful explicit wait drains the
    whole pending queue in order, and leaves no pending slot on the channel. *)
Theorem pending_bds_drain_fifo :
  (forall bo gmio dir size offset (s s' : Aie),
     submit_sync_bo bo gmio dir size offset s = (s', Ret tt) ->
     exists c k bd0 idle bd,
       chan_lookup s (gmio_shim_col gmio) (gmio_channel_number gmio) = Some c /\
       (k <= length (pend_bds c))%nat /\
       idle_bds c ++ map cleared (take k (pend_bds c)) = bd0 :: idle /\
       chan_lookup s' (gmio_shim_col gmio) (gmio_channel_number gmio) =
         Some {| idle_bds := idle; pend_bds := drop k (pend_bds c) ++ [bd] |} /\
       bd_num bd = bd_num bd0 /\
       releases (trace s') =
         releases (trace s) ++ flat_map release_events (take k (pend_bds c))) /\
  (forall col chan gmdir timeout (s s' : Aie),
     wait_sync_bo col chan gmdir timeout s = (s', Ret tt) ->
     exists c,
       chan_lookup s col chan = Some c /\
       chan_lookup s' col chan =
         Some {| idle_bds := idle_bds c ++ map cleared (pend_bds c); pend_bds := [] |} /\
       releases (trace s') = releases (trace s) ++ flat_map release_events (pend_bds c)).
Proof.
  split.
  - intros bo gmio dir size offset s s' H. exact (submit_sync_bo_ok _ _ _ _ _ _ _ H).
  - intros col chan gmdir timeout s s' H. exact (wait_sync_bo_ok _ _ _ _ _ _ H).
Qed.

(** ** Concrete runs for the general statements *)

Definition prof_s0 : Aie := aie_init (hw_ok [] []) [plio_out] (pool_free 2 2).

(** One session started on [plio_out]. *)
Definition prof_s1 : Aie :=
  fst (start_profiling IO_STREAM_RUNNING_EVENT_COUNT "plio_out" "" 0 prof_s0).

(** The record of that session: the counter first, then the event port. *)
Definition prof_record : EventRecord :=
  {| ev_option := IO_STREAM_RUNNING_EVENT_COUNT;
     acquiredResources :=
       [{| res_loc := TileLoc 0 0; res_module := pl_module;
           res_resource := performance_counter; res_id := 0 |};
        {| res_loc := TileLoc 0 0; res_module := pl_module;
           res_resource := stream_switch_event_port; res_id := 0 |}] |}.

(** A shim tile with a free event port and no performance counter. *)
Definition prof_partial : Aie := aie_init (hw_ok [] []) [plio_out] (pool_free 0 1).

(** A PLIO whose logical name is the name of the GMIO [gmio_in]. *)
Definition plio_alias : plio_type :=
  {| plio_name := "plio_in"; plio_logical_name := "gmio_in"; plio_shim_col := 0;
     plio_stream_id := 2; plio_is_master := false |}.

Definition prof_alias : Aie := aie_init (hw_ok [] []) [plio_alias] (pool_free 2 2).

(** A second buffer, exported as descriptor 9. *)
Definition bo_second : xrtBufferHandle :=
  {| bo_export := 9; bo_size := 128; bo_address := 0 |}.

(** Two non-blocking transfers A ([bo256]) then B ([bo_second]) on channel 0,
    with a hardware that reports completion at the first poll. *)
Definition fifo_s0 : Aie := aie_init (hw_ok [true] []) [plio_out] (pool_free 2 2).
Definition fifo_s1 : Aie :=
  fst (submit_sync_bo bo256 gmio_in XCL_BO_SYNC_BO_GMIO_TO_AIE 256 0 fifo_s0).
Definition fifo_s2 : Aie :=
  fst (submit_sync_bo bo_second gmio_in XCL_BO_SYNC_BO_GMIO_TO_AIE 128 0 fifo_s1).
Definition fifo_s3 : Aie := fst (wait_sync_bo 0 0 DMA_MM2S 0 fifo_s2).

(** ** Witnesses *)

Lemma read_profiling_unchecked_handle_witness :
  read_profiling 1 prof_s1 = (prof_s1, Undef) /\
  read_profiling (-1) prof_s1 = (prof_s1, Undef).
Proof.
  assert (E : List.length (eventRecords prof_s1) = 1%nat) by (vm_compute; reflexivity).
  split.
  - apply (read_profiling_unchecked_handle prof_s1 1); rewrite ?E; simpl; lia.
  - apply (read_profiling_unchecked_handle prof_s1 (-1)); rewrite ?E; simpl; lia.
Defined.

Lemma start_profiling_ambiguous_port_witness :
  exists msg, start_profiling IO_STREAM_RUNNING_EVENT_COUNT "gmio_in" "" 0 prof_alias
              = (prof_alias, Raise (xrt_error (- EINVAL) msg)).
Proof.
  apply (start_profiling_ambiguous_port prof_alias IO_STREAM_RUNNING_EVENT_COUNT
           "gmio_in" "" 0).
  - exists gmio_in. split; [left; reflexivity | reflexivity].
  - exists plio_alias. split; [left; reflexivity | right; reflexivity].
Defined.

Lemma port_absent_einval_unchanged_witness :
  (exists msg, sync_bo bo256 "gmio_out" XCL_BO_SYNC_BO_GMIO_TO_AIE 256 0 prof_s0
               = (prof_s0, Raise (xrt_error (- EINVAL) msg))) /\
  (exists msg, sync_bo_nb bo256 "gmio_out" XCL_BO_SYNC_BO_GMIO_TO_AIE 256 0 prof_s0
               = (prof_s0, Raise (xrt_error (- EINVAL) msg))) /\
  (exists msg, wait_gmio "gmio_out" prof_s0 = (prof_s0, Raise (xrt_error (- EINVAL) msg))) /\
  (exists msg, start_profiling IO_STREAM_RUNNING_EVENT_COUNT "gmio_out" "" 0 prof_s0
               = (prof_s0, Raise (xrt_error (- EINVAL) msg))).
Proof.
  destruct (port_absent_einval_unchanged prof_s0 bo256 "gmio_out" XCL_BO_SYNC_BO_GMIO_TO_AIE
              256 0 IO_STREAM_RUNNING_EVENT_COUNT "" 0) as (H1 & H2 & H3 & H4).
  - intros g [<- | []]. vm_compute. discriminate.
  - split; [exact H1|]. split; [exact H2|]. split; [exact H3|].
    apply H4. intros p [<- | []]. vm_compute. split; discriminate.
Defined.

Lemma start_profiling_partial_grant_unwound_witness :
  (exists msg, snd (start_profiling IO_STREAM_RUNNING_EVENT_COUNT "plio_out" "" 0 prof_partial)
               = Raise (xrt_error (- EAGAIN) msg)) /\
  resources (fst (start_profiling IO_STREAM_RUNNING_EVENT_COUNT "plio_out" "" 0 prof_partial))
    = resources prof_partial /\
  eventRecords (fst (start_profiling IO_STREAM_RUNNING_EVENT_COUNT "plio_out" "" 0 prof_partial))
    = eventRecords prof_partial.
Proof.
  apply (start_profiling_partial_grant_unwound prof_partial IO_STREAM_RUNNING_EVENT_COUNT
           "plio_out" "" 0 0 {| perf_counters := []; event_ports := [None] |}).
  - reflexivity.
  - reflexivity.
  - vm_compute. reflexivity.
  - lia.
  - vm_compute. reflexivity.
  - vm_compute. discriminate.
  - vm_compute. reflexivity.
Defined.

Definition prof_mismatch : Aie := set_eventRecords prof_s0 [port_first_record].

Lemma read_profiling_first_resource_witness :
  read_profiling 0 prof_s1 =
    (set_trace prof_s1 (trace prof_s1 ++ [EvPerfCounterGet (TileLoc 0 0) pl_module 0]),
     Ret (hw_counter (hw prof_s1) (TileLoc 0 0) pl_module 0 mod 2 ^ 32)) /\
  (exists msg, read_profiling 0 prof_mismatch
               = (prof_mismatch, Raise (xrt_error (- EAGAIN) msg))).
Proof.
  split.
  - destruct (read_profiling_first_resource prof_s1 0 prof_record
                {| res_loc := TileLoc 0 0; res_module := pl_module;
                   res_resource := performance_counter; res_id := 0 |}
                [{| res_loc := TileLoc 0 0; res_module := pl_module;
                    res_resource := stream_switch_event_port; res_id := 0 |}])
      as [_ H].
    + lia.
    + vm_compute. reflexivity.
    + reflexivity.
    + exact (H eq_refl).
  - destruct (read_profiling_first_resource prof_mismatch 0 port_first_record
                {| res_loc := TileLoc 0 0; res_module := pl_module;
                   res_resource := stream_switch_event_port; res_id := 0 |}
                [{| res_loc := TileLoc 0 0; res_module := pl_module;
                    res_resource := performance_counter; res_id := 0 |}])
      as [H _].
    + lia.
    + vm_compute. reflexivity.
    + reflexivity.
    + apply H. discriminate.
Defined.

Lemma session_handle_is_insertion_index_witness :
  0 = Z.of_nat (List.length (eventRecords prof_s0)) /\
  exists r, eventRecords prof_s1 = eventRecords prof_s0 ++ [r] /\
            eventRecords prof_s1 !! Z.to_nat 0 = Some r.
Proof.
  apply (proj1 session_handle_is_insertion_index prof_s0 IO_STREAM_RUNNING_EVENT_COUNT
           "plio_out" "" 0 prof_s1 0).
  - vm_compute. reflexivity.
  - vm_compute. reflexivity.
Defined.

Lemma pending_bds_drain_fifo_witness :
  exists c,
    chan_lookup fifo_s2 0 0 = Some c /\
    chan_lookup fifo_s3 0 0 =
      Some {| idle_bds := idle_bds c ++ map cleared (pend_bds c); pend_bds := [] |} /\
    releases (trace fifo_s3) = releases (trace fifo_s2) ++ flat_map release_events (pend_bds c) /\
    map buf_fd (pend_bds c) = [7; 9] /\
    releases (trace fifo_s3) =
      [EvMunmap (4096 * 7) 256; EvDetach 7; EvMunmap (4096 * 9) 128; EvDetach 9].
Proof.
  destruct (proj2 pending_bds_drain_fifo 0 0 DMA_MM2S 0 fifo_s2 fifo_s3)
    as (c & Hc & H1 & H2).
  - vm_compute. reflexivity.
  - exists c. split; [exact Hc|]. split; [exact H1|]. split; [exact H2|].
    split; [|vm_compute; reflexivity].
    vm_compute in Hc. injection Hc as <-. reflexivity.
Defined.

(** * The rest of [aie.cpp]: construction and reset *)

(** A [ShimDMA] as [shim_dma.resize(numCols)] value-initialises it: [nchan]
    empty channels ([dma_chan] is a fixed array of aie.h), not configured, a
    queue size of 0. *)
Definition shim_dma_default (nchan : Z) : ShimDMA :=
  {| dma_chan := replicate (Z.to_nat nchan) {| idle_bds := []; pend_bds := [] |};
     maxqSize := 0; configured := false |}.

Definition set_devInst (s : Aie) (b : bool) : Aie :=
  {| devInst := b; gmios := gmios s; plios := plios s; shim_dma := shim_dma s;
     eventRecords := eventRecords s; resources := resources s; hw := hw s;
     trace := trace s |}.

(** [auto dma = &shim_dma.at(col)] followed by a write to a field of [*dma]. *)
Definition update_dma (col : Z) (f : ShimDMA -> ShimDMA) : M unit :=
  modify (fun s => set_shim_dma s (alter f (Z.to_nat col) (shim_dma s))).

(** [for (int i = 0; i < dma->maxqSize; ++i) { BD bd; bd.bd_num = chan *
    dma->maxqSize + i; dma->dma_chan[chan].idle_bds.push(bd); }]: the first
    [n] turns. *)
Fixpoint init_bds (col chan maxq : Z) (n : nat) : M unit :=
  match n with
  | O => ok tt
  | S n' =>
      let! _ := init_bds col chan maxq n' in
      idle_push col chan (bd_empty (chan * maxq + Z.of_nat n'))
  end.

(** One turn of the GMIO loop of [Aie::Aie].  [maxq] is the queue size that
    [XAie_DmaGetMaxQueueSize] writes into [dma->maxqSize] (a [uint8_t]).  The
    calls [XAie_DmaDescInit], [XAie_DmaChannelEnable] and [XAie_DmaSetAxi]
    change no state of the model and are not recorded. *)
Definition init_gmio (numCols maxq : Z) (gmio : gmio_type) : M unit :=
  let col := gmio_shim_col gmio in
  if numCols <? col then
    throw (- EINVAL) ("GMIO " ++ gmio_name gmio ++ " shim column " ++ pretty col
                      ++ " does not exist")%string
  else
    let! dma := shim_dma_at col in
    let! _ := (if negb (configured dma) then
                 update_dma col (fun d => {| dma_chan := dma_chan d; maxqSize := maxqSize d;
                                              configured := true |})
               else ok tt) in
    let chan := gmio_channel_number gmio in
    let! _ := update_dma col (fun d => {| dma_chan := dma_chan d; maxqSize := maxq mod 256;
                                          configured := configured d |}) in
    init_bds col chan (maxq mod 256) (Z.to_nat (maxq mod 256)).

Fixpoint init_gmios (numCols maxq : Z) (gs : list gmio_type) : M unit :=
  match gs with
  | [] => ok tt
  | g :: gs' => let! _ := init_gmio numCols maxq g in init_gmios numCols maxq gs'
  end.

(** [Aie::Aie].  [partition_ret] is the answer of [getPartitionFd],
    [cfg_rc] the one of [XAie_CfgInitialize]; [ps] and [gs] are the PLIO and
    GMIO metadata of the device, [numCols] is [XAIE_NUM_COLS], [nchan] the
    number of channels of a shim DMA, and [pool] the resource pool built by
    [Resources::AIE::initialize]. *)
Definition Aie_construct (partition_ret cfg_rc : Z) (ps : list plio_type)
    (gs : list gmio_type) (numCols nchan maxq : Z) (pool : Pool) (h : Hw)
    : Aie * outcome unit :=
  let s0 := {| devInst := false; gmios := []; plios := []; shim_dma := [];
               eventRecords := []; resources := pool; hw := h; trace := [] |} in
  (let! _ := (if negb (partition_ret =? 0)
              then throw partition_ret "Create AIE failed. Can not get AIE fd" else ok tt) in
   let! _ := (if negb (cfg_rc =? 0)
              then throw (- EINVAL) ("Failed to initialize AIE configuration: " ++ pretty cfg_rc)%string
              else ok tt) in
   let! _ := modify (fun s => set_devInst s true) in
   let! _ := modify (fun s =>
               {| devInst := devInst s; gmios := gs; plios := ps;
                  shim_dma := replicate (Z.to_nat numCols) (shim_dma_default nchan);
                  eventRecords := eventRecords s; resources := resources s; hw := hw s;
                  trace := trace s |}) in
   init_gmios numCols maxq gs) s0.

(** [Aie::getDevInst]. *)
Definition getDevInst : M unit :=
  let! di := gets devInst in
  if negb di then throw (- EINVAL) "AIE is not initialized" else ok tt.

(** [Aie::reset]; [reset_ret] is the answer of [resetAIEArray].
    [XAie_Finish] is not recorded. *)
Definition reset (reset_ret : Z) : M unit :=
  let! di := gets devInst in
  if negb di then throw (- EINVAL) "Can't Reset AIE: AIE is not initialized" else
  let! _ := modify (fun s => set_devInst s false) in
  if negb (reset_ret =? 0) then throw reset_ret "Fail to reset AIE Array" else ok tt.

(** The slots the GMIO loop gives to channel [chan] for one GMIO. *)
Definition bd_block (chan mq : Z) (n : nat) : list BD :=
  map (fun i => bd_empty (chan * mq + i)) (seqZ 0 (Z.of_nat n)).

(** The idle slots the constructor gives to channel [chan] of column [col]:
    one block for every GMIO on that channel, in the order of [gs]. *)
Definition gmio_bds (maxq col chan : Z) (gs : list gmio_type) : list BD :=
  flat_map (fun g => if (gmio_shim_col g =? col) && (gmio_channel_number g =? chan)
                     then bd_block chan (maxq mod 256) (Z.to_nat (maxq mod 256)) else []) gs.

(** The channels of the first [numCols] columns of [s], each with [nchan]
    channels, are all present, hold no pending slot, and hold the idle slots
    [I col chan]. *)
Definition dma_shape (s : Aie) (numCols nchan : Z) (I : Z -> Z -> list BD) : Prop :=
  length (shim_dma s) = Z.to_nat numCols /\
  forall col chan, 0 <= col < numCols -> 0 <= chan < nchan ->
    chan_lookup s col chan = Some {| idle_bds := I col chan; pend_bds := [] |}.

Lemma chan_lookup_update_other (s : Aie) col chan c col' chan' :
  0 <= col -> 0 <= chan -> 0 <= col' -> 0 <= chan' -> (col, chan) <> (col', chan') ->
  chan_lookup (chan_update s col chan c) col' chan' = chan_lookup s col' chan'.
Proof.
  intros ???? Hne. unfold chan_lookup, chan_update.
  destruct ((col' <? 0) || (chan' <? 0)); [reflexivity|]. simpl.
  destruct (decide (col = col')) as [<-|Hc].
  - rewrite list_lookup_alter_eq.
    destruct (shim_dma s !! Z.to_nat col) as [d|]; simpl; [|reflexivity].
    rewrite list_lookup_insert_ne; [reflexivity|].
    intros E. apply Hne. f_equal. lia.
  - rewrite list_lookup_alter_ne; [reflexivity|]. lia.
Qed.

Lemma length_chan_update (s : Aie) col chan c :
  length (shim_dma (chan_update s col chan c)) = length (shim_dma s).
Proof. apply length_alter. Qed.

Lemma init_bds_shape col chan mq n (s : Aie) numCols nchan I :
  0 <= col < numCols -> 0 <= chan < nchan ->
  dma_shape s numCols nchan I ->
  exists s', init_bds col chan mq n s = (s', Ret tt) /\
    dma_shape s' numCols nchan
      (fun c h => I c h ++ (if (c =? col) && (h =? chan) then bd_block chan mq n else [])) /\
    devInst s' = devInst s /\ gmios s' = gmios s /\ plios s' = plios s /\
    eventRecords s' = eventRecords s.
Proof.
  intros Hcol Hchan. revert s I.
  induction n as [|n IH]; intros s I [Hl Hs].
  - exists s. split; [reflexivity|]. split; [|auto]. split; [exact Hl|].
    intros c h Hc Hh. rewrite Hs by auto.
    destruct ((c =? col) && (h =? chan)); simpl; rewrite app_nil_r; reflexivity.
  - destruct (IH s I (conj Hl Hs)) as (s1 & E1 & [Hl1 Hs1] & D1 & G1 & P1 & R1).
    simpl. unfold bind at 1. rewrite E1.
    unfold idle_push, bind, get_chan. rewrite (Hs1 col chan Hcol Hchan). simpl.
    unfold put_chan, modify.
    eexists. split; [reflexivity|]. split; [split|].
    + rewrite length_chan_update. exact Hl1.
    + intros c h Hc Hh.
      destruct (decide ((col, chan) = (c, h))) as [E|E].
      * injection E as <- <-. rewrite chan_lookup_update, Hs1 by auto. simpl.
        rewrite !Z.eqb_refl. simpl. unfold bd_block. rewrite seqZ_S, map_app, !app_assoc.
        reflexivity.
      * rewrite chan_lookup_update_other by (auto; lia). rewrite Hs1 by auto.
        assert (Hf : ((c =? col) && (h =? chan)) = false).
        { destruct (Z.eqb_spec c col), (Z.eqb_spec h chan); subst; simpl; congruence. }
        rewrite Hf. reflexivity.
    + auto.
Qed.

Lemma chan_lookup_update_dma (s : Aie) col f col' chan' :
  (forall d, dma_chan (f d) = dma_chan d) ->
  chan_lookup (set_shim_dma s (alter f (Z.to_nat col) (shim_dma s))) col' chan'
  = chan_lookup s col' chan'.
Proof.
  intros Hf. unfold chan_lookup. destruct ((col' <? 0) || (chan' <? 0)); [reflexivity|].
  simpl. rewrite list_lookup_alter.
  destruct (decide (Z.to_nat col = Z.to_nat col')) as [E|E]; [|reflexivity].
  rewrite E. destruct (shim_dma s !! Z.to_nat col'); simpl; [rewrite Hf|]; reflexivity.
Qed.

Lemma update_dma_shape col f (s : Aie) numCols nchan I :
  (forall d, dma_chan (f d) = dma_chan d) ->
  dma_shape s numCols nchan I ->
  exists s', update_dma col f s = (s', Ret tt) /\ dma_shape s' numCols nchan I /\
    devInst s' = devInst s /\ gmios s' = gmios s /\ plios s' = plios s /\
    eventRecords s' = eventRecords s.
Proof.
  intros Hf [Hl Hs]. eexists. split; [reflexivity|]. split; [split|].
  - simpl. rewrite length_alter. exact Hl.
  - intros c h Hc Hh. rewrite chan_lookup_update_dma by exact Hf. auto.
  - auto.
Qed.

Lemma init_gmio_shape numCols nchan maxq g (s : Aie) I :
  0 <= gmio_shim_col g < numCols -> 0 <= gmio_channel_number g < nchan ->
  dma_shape s numCols nchan I ->
  exists s', init_gmio numCols maxq g s = (s', Ret tt) /\
    dma_shape s' numCols nchan
      (fun c h => I c h ++ gmio_bds maxq c h [g]) /\
    devInst s' = devInst s /\ gmios s' = gmios s /\ plios s' = plios s /\
    eventRecords s' = eventRecords s.
Proof.
  intros Hcol Hchan Hsh. unfold init_gmio.
  destruct (Z.ltb_spec numCols (gmio_shim_col g)); [lia|].
  destruct Hsh as [Hl Hs] eqn:Hsh'.
  destruct (lookup_lt_is_Some_2 (shim_dma s) (Z.to_nat (gmio_shim_col g))) as [d Hd]; [lia|].
  unfold bind at 1, shim_dma_at.
  destruct (Z.ltb_spec (gmio_shim_col g) 0); [lia|]. rewrite Hd.
  assert (Hconf : exists s1, (if negb (configured d) then
      update_dma (gmio_shim_col g) (fun d => {| dma_chan := dma_chan d; maxqSize := maxqSize d;
                                                  configured := true |})
      else ok tt) s = (s1, Ret tt) /\ dma_shape s1 numCols nchan I /\
      devInst s1 = devInst s /\ gmios s1 = gmios s /\ plios s1 = plios s /\
      eventRecords s1 = eventRecords s).
  { destruct (negb (configured d)).
    - apply update_dma_shape; [reflexivity | exact Hsh].
    - exists s. split; [reflexivity|]. auto. }
  destruct Hconf as (s1 & E1 & Hsh1 & D1 & G1 & P1 & R1).
  unfold bind at 1. rewrite E1.
  destruct (update_dma_shape (gmio_shim_col g)
              (fun d => {| dma_chan := dma_chan d; maxqSize := maxq mod 256;
                           configured := configured d |}) s1 numCols nchan I
              (fun _ => eq_refl) Hsh1) as (s2 & E2 & Hsh2 & D2 & G2 & P2 & R2).
  unfold bind at 1. rewrite E2.
  destruct (init_bds_shape (gmio_shim_col g) (gmio_channel_number g) (maxq mod 256)
              (Z.to_nat (maxq mod 256)) s2 numCols nchan I Hcol Hchan Hsh2)
    as (s3 & E3 & [Hl3 Hs3] & D3 & G3 & P3 & R3).
  exists s3. split; [exact E3|]. split; [split|].
  - exact Hl3.
  - intros c h Hc Hh. rewrite Hs3 by auto. unfold gmio_bds. simpl.
    rewrite app_nil_r.
    destruct (Z.eqb_spec c (gmio_shim_col g)), (Z.eqb_spec h (gmio_channel_number g));
      subst; simpl; rewrite ?Z.eqb_refl; simpl;
      repeat match goal with
      | H : ?a <> ?b |- context [?b =? ?a] => rewrite (proj2 (Z.eqb_neq b a)) by congruence
      end; simpl; reflexivity.
  - rewrite D3, G3, P3, R3, D2, G2, P2, R2. auto.
Qed.

Lemma init_gmios_shape numCols nchan maxq gs (s : Aie) I :
  Forall (fun g => 0 <= gmio_shim_col g < numCols /\ 0 <= gmio_channel_number g < nchan) gs ->
  dma_shape s numCols nchan I ->
  exists s', init_gmios numCols maxq gs s = (s', Ret tt) /\
    dma_shape s' numCols nchan (fun c h => I c h ++ gmio_bds maxq c h gs) /\
    devInst s' = devInst s /\ gmios s' = gmios s /\ plios s' = plios s /\
    eventRecords s' = eventRecords s.
Proof.
  revert s I. induction gs as [|g gs IH]; intros s I Hall Hsh.
  - exists s. split; [reflexivity|]. split; [|auto].
    destruct Hsh as [Hl Hs]. split; [exact Hl|]. intros c h Hc Hh.
    rewrite Hs by auto. simpl. rewrite app_nil_r. reflexivity.
  - apply Forall_cons in Hall as [[Hc Hh] Hall'].
    destruct (init_gmio_shape numCols nchan maxq g s I Hc Hh Hsh)
      as (s1 & E1 & Hsh1 & D1 & G1 & P1 & R1).
    destruct (IH s1 _ Hall' Hsh1) as (s2 & E2 & [Hl2 Hs2] & D2 & G2 & P2 & R2).
    exists s2. simpl. unfold bind at 1. rewrite E1. split; [exact E2|].
    split; [split|].
    + exact Hl2.
    + intros c h Hc' Hh'. rewrite Hs2 by auto. rewrite <- app_assoc.
      unfold gmio_bds. simpl. rewrite app_nil_r. reflexivity.
    + rewrite D2, G2, P2, R2, D1, G1, P1, R1. auto.
Qed.

Lemma init_gmios_app numCols maxq gs1 gs2 (s s1 : Aie) :
  init_gmios numCols maxq gs1 s = (s1, Ret tt) ->
  init_gmios numCols maxq (gs1 ++ gs2) s = init_gmios numCols maxq gs2 s1.
Proof.
  revert s. induction gs1 as [|g gs1 IH]; intros s H; simpl in *.
  - unfold ok in H. congruence.
  - apply bind_inv in H as (s' & [] & H1 & H2). unfold bind at 1. rewrite H1.
    apply IH. exact H2.
Qed.

(** The shape of the shim DMA table right after [shim_dma.resize(numCols)]. *)
Lemma default_shape (s : Aie) numCols nchan :
  0 <= numCols -> 0 <= nchan ->
  shim_dma s = replicate (Z.to_nat numCols) (shim_dma_default nchan) ->
  dma_shape s numCols nchan (fun _ _ => []).
Proof.
  intros Hn Hc Hs. split.
  - rewrite Hs. apply length_replicate.
  - intros col chan Hcol Hchan. unfold chan_lookup.
    destruct (Z.ltb_spec col 0); [lia|]. destruct (Z.ltb_spec chan 0); [lia|]. simpl.
    rewrite Hs, lookup_replicate_2 by lia. simpl.
    rewrite lookup_replicate_2 by lia. reflexivity.
Qed.

Lemma Aie_construct_run ps gs numCols nchan maxq pool h :
  Aie_construct 0 0 ps gs numCols nchan maxq pool h =
  init_gmios numCols maxq gs
    {| devInst := true; gmios := gs; plios := ps;
       shim_dma := replicate (Z.to_nat numCols) (shim_dma_default nchan);
       eventRecords := []; resources := pool; hw := h; trace := [] |}.
Proof. reflexivity. Qed.

Lemma Aie_construct_layout ps gs numCols nchan maxq pool h (s : Aie) o :
  0 <= numCols -> 0 <= nchan ->
  Forall (fun g => 0 <= gmio_shim_col g < numCols /\ 0 <= gmio_channel_number g < nchan) gs ->
  Aie_construct 0 0 ps gs numCols nchan maxq pool h = (s, o) ->
  o = Ret tt /\ devInst s = true /\ gmios s = gs /\ plios s = ps /\ eventRecords s = [] /\
  forall col chan, 0 <= col < numCols -> 0 <= chan < nchan ->
    chan_lookup s col chan =
      Some {| idle_bds := gmio_bds maxq col chan gs; pend_bds := [] |}.
Proof.
  intros Hn Hc Hall E. rewrite Aie_construct_run in E.
  match type of E with init_gmios _ _ _ ?s0 = _ =>
    destruct (init_gmios_shape numCols nchan maxq gs s0 (fun _ _ => []) Hall
                (default_shape s0 numCols nchan Hn Hc eq_refl))
      as (s' & E' & [_ Hs] & D & G & P & R) end.
  rewrite E' in E. injection E as <- <-. simpl in *.
  repeat split; auto.
Qed.

(** The constructor's channel layout.  When every GMIO lies in the array
    (column below [numCols], channel below [nchan]), construction succeeds,
    records the metadata, has no session, and gives each channel no pending
    slot and, as idle slots, one block of [maxqSize] slots numbered
    [chan * maxqSize + i] per GMIO on that channel, in GMIO order. *)
Theorem aie_construct_channel_layout ps gs numCols nchan maxq pool h (s : Aie) o :
  0 <= numCols -> 0 <= nchan ->
  Forall (fun g => 0 <= gmio_shim_col g < numCols /\ 0 <= gmio_channel_number g < nchan) gs ->
  Aie_construct 0 0 ps gs numCols nchan maxq pool h = (s, o) ->
  o = Ret tt /\ devInst s = true /\ gmios s = gs /\ plios s = ps /\ eventRecords s = [] /\
  forall col chan, 0 <= col < numCols -> 0 <= chan < nchan ->
    chan_lookup s col chan =
      Some {| idle_bds := gmio_bds maxq col chan gs; pend_bds := [] |}.
Proof.
  apply Aie_construct_layout.
Qed.

(** The column check of the constructor is off by one: a GMIO on column
    [numCols] passes [gmio.shim_col > numCols] and makes [shim_dma.at] throw
    [std::out_of_range]; only a column beyond it gets the [-EINVAL] error. *)
Theorem aie_construct_column_check ps gs1 g gs2 numCols nchan maxq pool h (s : Aie) o :
  0 <= numCols -> 0 <= nchan ->
  Forall (fun g => 0 <= gmio_shim_col g < numCols /\ 0 <= gmio_channel_number g < nchan) gs1 ->
  Aie_construct 0 0 ps (gs1 ++ g :: gs2) numCols nchan maxq pool h = (s, o) ->
  (gmio_shim_col g = numCols -> o = Raise std_out_of_range) /\
  (numCols < gmio_shim_col g -> exists msg, o = Raise (xrt_error (- EINVAL) msg)).
Proof.
  intros Hn Hc Hall E. rewrite Aie_construct_run in E.
  match type of E with init_gmios _ _ _ ?s0 = _ =>
    destruct (init_gmios_shape numCols nchan maxq gs1 s0 (fun _ _ => []) Hall
                (default_shape s0 numCols nchan Hn Hc eq_refl))
      as (s1 & E1 & [Hl _] & _) end.
  rewrite (init_gmios_app _ _ _ _ _ _ E1) in E. simpl in E.
  unfold init_gmio, bind at 1 in E. split; intros Hg.
  - destruct (Z.ltb_spec numCols (gmio_shim_col g)); [lia|].
    unfold bind at 1, shim_dma_at in E.
    destruct (Z.ltb_spec (gmio_shim_col g) 0); [lia|].
    rewrite lookup_ge_None_2 in E by lia. congruence.
  - destruct (Z.ltb_spec numCols (gmio_shim_col g)); [|lia].
    unfold throw in E. injection E as _ <-. eauto.
Qed.

(** Two GMIOs on the same column and channel each give that channel a full
    block of slots: the idle queue then holds every slot number twice. *)
Theorem aie_construct_shared_channel_duplicates ps gs1 g1 gs2 g2 gs3 numCols nchan maxq
    pool h (s : Aie) o :
  let gs := gs1 ++ g1 :: gs2 ++ g2 :: gs3 in
  0 <= numCols -> 0 <= nchan -> 0 < maxq mod 256 ->
  Forall (fun g => 0 <= gmio_shim_col g < numCols /\ 0 <= gmio_channel_number g < nchan) gs ->
  gmio_shim_col g1 = gmio_shim_col g2 -> gmio_channel_number g1 = gmio_channel_number g2 ->
  Aie_construct 0 0 ps gs numCols nchan maxq pool h = (s, o) ->
  exists c, chan_lookup s (gmio_shim_col g1) (gmio_channel_number g1) = Some c /\
            ~ NoDup (map bd_num (idle_bds c)).
Proof.
  intros gs Hn Hc Hq Hall Hcol Hchan E.
  destruct (Aie_construct_layout _ _ _ _ _ _ _ _ _ Hn Hc Hall E)
    as (_ & _ & _ & _ & _ & Hs).
  assert (Hg1 := Hall). unfold gs in Hg1.
  apply Forall_app in Hg1 as [_ Hg1]. apply Forall_cons in Hg1 as [[Hc1 Hh1] _].
  eexists. split; [apply Hs; auto|]. simpl.
  unfold gs, gmio_bds. rewrite flat_map_app. simpl. rewrite flat_map_app. simpl.
  rewrite <- Hcol, <- Hchan, !Z.eqb_refl. simpl.
  set (B := bd_block (gmio_channel_number g1) (maxq mod 256) (Z.to_nat (maxq mod 256))).
  assert (HB : bd_empty (gmio_channel_number g1 * (maxq mod 256) + 0) ∈ B).
  { unfold B, bd_block. apply list_elem_of_In, in_map_iff. exists 0.
    split; [reflexivity|]. apply list_elem_of_In, elem_of_seqZ. lia. }
  intros Hnd. rewrite !map_app in Hnd.
  apply NoDup_app in Hnd as (_ & Hd & Hnd). simpl in Hnd.
  apply NoDup_app in Hnd as (_ & Hd2 & _).
  apply (Hd2 (bd_num (bd_empty (gmio_channel_number g1 * (maxq mod 256) + 0)))).
  - apply list_elem_of_In, in_map, list_elem_of_In. exact HB.
  - apply elem_of_app. right. apply elem_of_app. left.
    apply list_elem_of_In, in_map, list_elem_of_In. exact HB.
Qed.

(** ** Constructor runs on the concrete array *)

(** A GMIO on the column just past a one-column array. *)
Definition gmio_col1 : gmio_type :=
  {| gmio_name := "gmio_col1"; gmio_type_ := 0; gmio_shim_col := 1; gmio_channel_number := 0;
     gmio_stream_id := 4; gmio_burst_len := 64 |}.

(** A second GMIO sharing column 0, channel 0 with [gmio_in]. *)
Definition gmio_twin : gmio_type :=
  {| gmio_name := "gmio_twin"; gmio_type_ := 0; gmio_shim_col := 0; gmio_channel_number := 0;
     gmio_stream_id := 5; gmio_burst_len := 64 |}.

Abbreviation construct_run gs :=
  (Aie_construct 0 0 [plio_out] gs 1 4 4 (pool_free 2 2) (hw_ok [] [])) (only parsing).

Lemma aie_construct_channel_layout_witness :
  chan_lookup (fst (construct_run [gmio_in])) 0 0 =
    Some {| idle_bds := gmio_bds 4 0 0 [gmio_in]; pend_bds := [] |} /\
  gmio_bds 4 0 0 [gmio_in] = map bd_empty [0; 1; 2; 3].
Proof.
  destruct (aie_construct_channel_layout [plio_out] [gmio_in] 1 4 4 (pool_free 2 2)
              (hw_ok [] []) (fst (construct_run [gmio_in])) (snd (construct_run [gmio_in])))
    as (_ & _ & _ & _ & _ & H).
  - lia.
  - lia.
  - repeat constructor; simpl; lia.
  - apply surjective_pairing.
  - split; [apply H; lia | vm_compute; reflexivity].
Defined.

Lemma aie_construct_column_check_witness :
  snd (construct_run [gmio_in; gmio_col1]) = Raise std_out_of_range.
Proof.
  destruct (aie_construct_column_check [plio_out] [gmio_in] gmio_col1 [] 1 4 4 (pool_free 2 2)
              (hw_ok [] []) (fst (construct_run [gmio_in; gmio_col1]))
              (snd (construct_run [gmio_in; gmio_col1]))) as [H _].
  - lia.
  - lia.
  - repeat constructor; simpl; lia.
  - apply surjective_pairing.
  - apply H. reflexivity.
Defined.

Lemma aie_construct_shared_channel_duplicates_witness :
  exists c, chan_lookup (fst (construct_run [gmio_in; gmio_twin])) 0 0 = Some c /\
            ~ NoDup (map bd_num (idle_bds c)).
Proof.
  destruct (construct_run [gmio_in; gmio_twin]) as [s o] eqn:Er.
  pose proof (aie_construct_shared_channel_duplicates [plio_out] [] gmio_in [] gmio_twin [] 1 4 4
           (pool_free 2 2) (hw_ok [] []) s o) as H.
  cbv zeta in H. rewrite !app_nil_l in H.
  apply H.
  - lia.
  - lia.
  - vm_compute. reflexivity.
  - repeat constructor; simpl; lia.
  - reflexivity.
  - reflexivity.
  - exact Er.
Defined.

(** ** [reset] and the [devInst] guard *)

(** The computation does not look at [devInst] and keeps it as it is. *)
Definition devInst_blind {A} (m : M A) : Prop :=
  forall s b, m (set_devInst s b) = (set_devInst (fst (m s)) b, snd (m s)).

Lemma blind_ok {A} (a : A) : devInst_blind (ok a).
Proof. intros s b. reflexivity. Qed.

Lemma blind_throw {A} c msg : devInst_blind (A := A) (throw c msg).
Proof. intros s b. reflexivity. Qed.

Lemma blind_undef {A} : devInst_blind (A := A) undef.
Proof. intros s b. reflexivity. Qed.

Lemma blind_bind {A B} (m : M A) (f : A -> M B) :
  devInst_blind m -> (forall a, devInst_blind (f a)) -> devInst_blind (bind m f).
Proof.
  intros Hm Hf s b. unfold bind. rewrite Hm.
  destruct (m s) as [s1 []]; simpl; [apply Hf | reflexivity ..].
Qed.

Lemma blind_emit e : devInst_blind (emit e).
Proof. intros s b. reflexivity. Qed.


Lemma blind_shim_tile_pool col : devInst_blind (shim_tile_pool col).
Proof. intros s b. unfold shim_tile_pool. simpl. case_match; reflexivity. Qed.

Lemma blind_aie_tile_pool col row : devInst_blind (aie_tile_pool col row).
Proof. intros s b. unfold aie_tile_pool. simpl. case_match; reflexivity. Qed.

Lemma blind_put_shim_tile_pool col m : devInst_blind (put_shim_tile_pool col m).
Proof. intros s b. reflexivity. Qed.

Lemma blind_put_aie_tile_pool col row m : devInst_blind (put_aie_tile_pool col row m).
Proof. intros s b. reflexivity. Qed.

Create HintDb blind.
#[local] Hint Resolve blind_ok blind_throw blind_undef blind_emit blind_shim_tile_pool
  blind_aie_tile_pool blind_put_shim_tile_pool blind_put_aie_tile_pool : blind.

Ltac blind_tac :=
  repeat (apply blind_bind; [auto with blind | intros ?]);
  repeat case_match; auto with blind.

Lemma blind_release_pl_counter loc owner id : devInst_blind (release_pl_counter loc owner id).
Proof. unfold release_pl_counter. blind_tac. Qed.

Lemma blind_release_core_counter loc owner id :
  devInst_blind (release_core_counter loc owner id).
Proof. unfold release_core_counter. blind_tac. Qed.

Lemma blind_release_pl_port loc owner id : devInst_blind (release_pl_port loc owner id).
Proof. unfold release_pl_port. blind_tac. Qed.

#[local] Hint Resolve blind_release_pl_counter blind_release_core_counter
  blind_release_pl_port : blind.





(** [Aie::reset] on an initialised array ends the [devInst] handle whether
    or not [resetAIEArray] succeeds, and changes nothing else: the DMA slots,
    pending ones and their buffer bindings included, the session records and
    the resource pool stay as they were.  From then on [sync_bo],
    [sync_bo_nb], [wait_gmio], [start_profiling], [getDevInst] and [reset]
    itself fail with [-EINVAL] and leave the state unchanged. *)
Theorem reset_disables_guarded_calls ret (s s' : Aie) o :
  devInst s = true -> reset ret s = (s', o) ->
  s' = set_devInst s false /\
  o = (if ret =? 0 then Ret tt else Raise (xrt_error ret "Fail to reset AIE Array")) /\
  (forall bo name dir size offset, exists msg,
     sync_bo bo name dir size offset s' = (s', Raise (xrt_error (- EINVAL) msg))) /\
  (forall bo name dir size offset, exists msg,
     sync_bo_nb bo name dir size offset s' = (s', Raise (xrt_error (- EINVAL) msg))) /\
  (forall name, exists msg, wait_gmio name s' = (s', Raise (xrt_error (- EINVAL) msg))) /\
  (forall opt p1 p2 v, exists msg,
     start_profiling opt p1 p2 v s' = (s', Raise (xrt_error (- EINVAL) msg))) /\
  (exists msg, getDevInst s' = (s', Raise (xrt_error (- EINVAL) msg))) /\
  (forall ret', exists msg, reset ret' s' = (s', Raise (xrt_error (- EINVAL) msg))).
Proof.
  intros Hd E. unfold reset, bind, gets, modify in E. rewrite Hd in E. simpl in E.
  assert (s' = set_devInst s false /\
          o = (if ret =? 0 then Ret tt else Raise (xrt_error ret "Fail to reset AIE Array")))
    as [-> ->].
  { destruct (ret =? 0); unfold throw, ok in E; cbn in E; injection E as <- <-; auto. }
  repeat split; intros; eexists; reflexivity.
Qed.


Lemma reset_disables_guarded_calls_witness :
  fst (reset 5 prof_s1) = set_devInst prof_s1 false /\
  snd (reset 5 prof_s1) = Raise (xrt_error 5 "Fail to reset AIE Array") /\
  exists msg, sync_bo bo256 "gmio_in" XCL_BO_SYNC_BO_GMIO_TO_AIE 256 0 (fst (reset 5 prof_s1))
              = (fst (reset 5 prof_s1), Raise (xrt_error (- EINVAL) msg)).
Proof.
  destruct (reset_disables_guarded_calls 5 prof_s1 (fst (reset 5 prof_s1)) (snd (reset 5 prof_s1)))
    as (H1 & H2 & H3 & _).
  - vm_compute. reflexivity.
  - apply surjective_pairing.
  - split; [exact H1|]. split; [exact H2|].
    apply (H3 bo256 "gmio_in" XCL_BO_SYNC_BO_GMIO_TO_AIE 256 0).
Defined.

(** [sync_bo] and [sync_bo_nb] check the direction against the GMIO type
    before anything else: with a direction that does not match (or is not a
    GMIO direction) they fail with [-EINVAL] whatever the size and offset,
    and the state, hardware calls included, is unchanged. *)
Theorem sync_direction_mismatch_einval bo name dir size offset (s : Aie) g :
  devInst s = true -> find_gmio name (gmios s) = Some g ->
  (dir = XCL_BO_SYNC_BO_GMIO_TO_AIE /\ gmio_type_ g <> 0 \/
   dir = XCL_BO_SYNC_BO_AIE_TO_GMIO /\ gmio_type_ g <> 1 \/
   dir = XCL_BO_SYNC_BO_TO_DEVICE \/ dir = XCL_BO_SYNC_BO_FROM_DEVICE) ->
  exists msg,
    sync_bo_nb bo name dir size offset s = (s, Raise (xrt_error (- EINVAL) msg)) /\
    sync_bo bo name dir size offset s = (s, Raise (xrt_error (- EINVAL) msg)).
Proof.
  intros Hd Hf Hdir.
  assert (exists msg, submit_sync_bo bo g dir size offset s
                      = (s, Raise (xrt_error (- EINVAL) msg))) as [msg Hs].
  { unfold submit_sync_bo, bind at 1.
    destruct Hdir as [[-> Ht] | [[-> Ht] | [-> | ->]]];
      try (apply Z.eqb_neq in Ht; rewrite Ht); eexists; reflexivity. }
  exists msg. unfold sync_bo_nb, sync_bo, bind, gets. rewrite Hd. simpl. rewrite Hf.
  rewrite Hs. split; reflexivity.
Qed.

(** A blocking [sync_bo] that succeeds leaves the GMIO's channel with no
    pending slot, and as many idle slots as the channel had slots, idle and
    pending, before the call. *)
Theorem sync_bo_success_drains_channel bo name dir size offset (s s' : Aie) :
  sync_bo bo name dir size offset s = (s', Ret tt) ->
  exists g c c',
    find_gmio name (gmios s) = Some g /\
    chan_lookup s (gmio_shim_col g) (gmio_channel_number g) = Some c /\
    chan_lookup s' (gmio_shim_col g) (gmio_channel_number g) = Some c' /\
    pend_bds c' = [] /\ length (idle_bds c') = slot_count c.
Proof.
  unfold sync_bo. intros H.
  apply bind_inv in H as (s0 & di & H0 & H). unfold gets in H0. injection H0 as <- <-.
  destruct (devInst s); simpl in H; [|discriminate].
  apply bind_inv in H as (s1 & gs & H1 & H). unfold gets in H1. injection H1 as <- <-.
  destruct (find_gmio name (gmios s)) as [g|] eqn:Ef; [|discriminate].
  apply bind_inv in H as (s2 & [] & H2 & H).
  apply bind_inv in H as (s3 & d & H3 & H).
  unfold shim_dma_at in H3. repeat case_match; simplify_eq.
  all: apply submit_sync_bo_ok in H2 as (c & k & bd0 & idle & bd & Hc & Hk & Hi & Hc2 & _ & _).
  all: apply wait_sync_bo_ok in H as (c1 & Hc1 & Hc3 & _).
  all: rewrite Hc2 in Hc1; injection Hc1 as <-.
  all: do 3 eexists; split; [reflexivity|]; split; [exact Hc|]; split; [exact Hc3|].
  all: simpl; split; [reflexivity|].
  all: unfold slot_count; rewrite length_app, length_map, length_app; simpl.
  all: apply (f_equal length) in Hi; rewrite length_app, length_map, length_take in Hi;
       simpl in Hi; rewrite length_drop; lia.
Qed.

Lemma sync_direction_mismatch_einval_witness :
  exists msg,
    sync_bo_nb bo256 "gmio_in" XCL_BO_SYNC_BO_AIE_TO_GMIO 256 0 prof_s0
      = (prof_s0, Raise (xrt_error (- EINVAL) msg)) /\
    sync_bo bo256 "gmio_in" XCL_BO_SYNC_BO_AIE_TO_GMIO 256 0 prof_s0
      = (prof_s0, Raise (xrt_error (- EINVAL) msg)).
Proof.
  apply (sync_direction_mismatch_einval bo256 "gmio_in" XCL_BO_SYNC_BO_AIE_TO_GMIO 256 0
           prof_s0 gmio_in).
  - reflexivity.
  - reflexivity.
  - right. left. split; [reflexivity | simpl; lia].
Defined.

(** An array whose GMIO channel has one pending transfer; the next
    [sync_bo] finds an idle slot and then waits for both. *)
Definition sync_s0 : Aie :=
  fst (sync_bo_nb bo256 "gmio_in" XCL_BO_SYNC_BO_GMIO_TO_AIE 256 0
         (aie_init (hw_ok [true] []) [plio_out] (pool_free 2 2))).

Lemma sync_bo_success_drains_channel_witness :
  exists g c c',
    find_gmio "gmio_in" (gmios sync_s0) = Some g /\
    chan_lookup sync_s0 (gmio_shim_col g) (gmio_channel_number g) = Some c /\
    chan_lookup (fst (sync_bo bo256 "gmio_in" XCL_BO_SYNC_BO_GMIO_TO_AIE 256 0 sync_s0))
      (gmio_shim_col g) (gmio_channel_number g) = Some c' /\
    pend_bds c' = [] /\ length (idle_bds c') = slot_count c.
Proof.
  destruct (sync_bo bo256 "gmio_in" XCL_BO_SYNC_BO_GMIO_TO_AIE 256 0 sync_s0) as [s' o] eqn:E.
  assert (Ho : o = Ret tt) by (vm_compute in E; congruence). subst o.
  exact (sync_bo_success_drains_channel bo256 "gmio_in" XCL_BO_SYNC_BO_GMIO_TO_AIE 256 0
           sync_s0 s' E).
Defined.

(** ** [wait_gmio] when a buffer cannot be detached *)

Lemma shim_dma_at_chan (s : Aie) col chan c :
  chan_lookup s col chan = Some c -> exists d, shim_dma_at col s = (s, Ret d).
Proof.
  unfold chan_lookup, shim_dma_at. destruct (col <? 0)%Z; [discriminate|].
  destruct (chan <? 0)%Z; [discriminate|]. simpl.
  destruct (shim_dma s !! Z.to_nat col) as [d|]; simpl; [|discriminate]. intros _. eauto.
Qed.

Lemma bind_raise {A B} (m : M A) (f : A -> M B) s s' e :
  m s = (s', Raise e) -> bind m f s = (s', Raise e).
Proof. intros H. unfold bind. rewrite H. reflexivity. Qed.

Lemma wait_done_first col pchan gmdir t n (s : Aie) d :
  hw_done (hw s) = true :: d ->
  wait_done (S n) col pchan gmdir t s =
    (set_hw (set_trace s (trace s ++ [EvWaitForDone col pchan gmdir t]))
       {| hw_npend := hw_npend (hw s); hw_done := d; hw_attach := hw_attach (hw s);
          hw_detach := hw_detach (hw s); hw_mmap := hw_mmap (hw s);
          hw_counter := hw_counter (hw s); hw_errno := hw_errno (hw s) |}, Ret tt).
Proof.
  intros Hd. simpl. unfold bind, XAie_DmaWaitForDone, bind, emit, modify. simpl.
  rewrite Hd. reflexivity.
Qed.

Lemma drain_pending_detach_fail n col chan (s : Aie) c b rest :
  chan_lookup s col chan = Some c -> pend_bds c = b :: rest ->
  hw_detach (hw s) (buf_fd b) <> 0 ->
  drain_pending (S n) col chan s =
    (set_trace s (trace s ++ [EvMunmap (vaddr b) (bd_size b); EvDetach (buf_fd b)]),
     Raise (xrt_error (- hw_errno (hw s)) "Sync AIE Bo: fail to detach DMA buf.")).
Proof.
  intros Hc Hp Hdet. simpl.
  unfold bind, get_chan. rewrite Hc, Hp.
  unfold drain_one, bind, pend_front, bind, get_chan. rewrite Hc, Hp.
  unfold ok, clear_bd, bind, emit, modify, ioctl_detach, bind, emit, modify, gets, errno, throw.
  simpl. destruct (hw_detach (hw s) (buf_fd b) =? 0)%Z eqn:E; [lia|]. simpl.
  rewrite <- app_assoc. reflexivity.
Qed.

(** [Aie::wait_gmio] when the driver refuses to detach the first pending
    buffer: once the DMA reports done, [clear_bd] unmaps the buffer and the
    detach ioctl fails, so the call throws the negated [errno] with
    "Sync AIE Bo: fail to detach DMA buf.", and the channel is left as it
    was: the slot stays at the front of the pending queue (its buffer already
    unmapped), so it is neither returned to the idle queue nor dropped. *)
Theorem wait_gmio_detach_failure (s : Aie) name g c b rest d :
  devInst s = true -> find_gmio name (gmios s) = Some g ->
  chan_lookup s (gmio_shim_col g) (gmio_channel_number g) = Some c ->
  pend_bds c = b :: rest ->
  hw_done (hw s) = true :: d ->
  hw_detach (hw s) (buf_fd b) <> 0 ->
  exists s', wait_gmio name s =
      (s', Raise (xrt_error (- hw_errno (hw s)) "Sync AIE Bo: fail to detach DMA buf.")) /\
    chan_lookup s' (gmio_shim_col g) (gmio_channel_number g) = Some c /\
    hw_done (hw s') = d /\
    trace s' = (trace s ++
      [EvWaitForDone (gmio_shim_col g) (CONVERT_LCHANL_TO_PCHANL (gmio_channel_number g))
         (gmdir_of g) 0;
       EvMunmap (vaddr b) (bd_size b); EvDetach (buf_fd b)])%list.
Proof.
  intros Hdi Hg Hc Hp Hd Hdet.
  destruct (shim_dma_at_chan _ _ _ _ Hc) as [dm Hdm].
  unfold wait_gmio.
  rewrite (bind_ret _ _ s s true) by (unfold gets; rewrite Hdi; reflexivity). simpl.
  rewrite (bind_ret _ _ s s (gmios s)) by reflexivity. rewrite Hg.
  rewrite (bind_ret _ _ _ _ _ Hdm).
  unfold wait_sync_bo.
  rewrite (bind_ret _ _ s s (length (hw_done (hw s)))) by reflexivity.
  rewrite (bind_ret _ _ _ _ _ (wait_done_first _ _ _ _ _ _ _ Hd)).
  set (s1 := set_hw _ _).
  assert (Hc1 : chan_lookup s1 (gmio_shim_col g) (gmio_channel_number g) = Some c) by exact Hc.
  rewrite (bind_ret _ _ s1 s1 (length (pend_bds c)))
    by (unfold pending_count, bind, get_chan; rewrite Hc1; reflexivity).
  rewrite (drain_pending_detach_fail _ _ _ _ _ _ _ Hc1 Hp Hdet).
  eexists. split; [reflexivity|]. simpl.
  split; [exact Hc|]. split; [reflexivity|]. rewrite <- !app_assoc. reflexivity.
Qed.

(** A GMIO channel with one pending transfer whose buffer the driver refuses
    to detach. *)
Definition hw_detach_fails (done : list bool) : Hw :=
  {| hw_npend := []; hw_done := done; hw_attach := fun _ => 0; hw_detach := fun _ => -1;
     hw_mmap := fun _ fd => 4096 * fd; hw_counter := fun _ _ id => 1000 + id;
     hw_errno := 16 |}.

Definition detach_s0 : Aie :=
  fst (sync_bo_nb bo256 "gmio_in" XCL_BO_SYNC_BO_GMIO_TO_AIE 256 0
         (aie_init (hw_detach_fails [true]) [plio_out] (pool_free 2 2))).

Lemma wait_gmio_detach_failure_witness :
  exists c b rest s',
    chan_lookup detach_s0 0 0 = Some c /\ pend_bds c = b :: rest /\
    wait_gmio "gmio_in" detach_s0 =
      (s', Raise (xrt_error (-16) "Sync AIE Bo: fail to detach DMA buf.")) /\
    chan_lookup s' 0 0 = Some c.
Proof.
  destruct (chan_lookup detach_s0 0 0) as [c|] eqn:Hc; [|vm_compute in Hc; discriminate].
  destruct (pend_bds c) as [|b rest] eqn:Hp;
    [vm_compute in Hc; injection Hc as <-; discriminate|].
  destruct (wait_gmio_detach_failure detach_s0 "gmio_in" gmio_in c b rest [])
    as (s' & H1 & H2 & _); try exact Hc; try exact Hp.
  - vm_compute. reflexivity.
  - vm_compute. reflexivity.
  - vm_compute. reflexivity.
  - vm_compute. discriminate.
  - exists c, b, rest, s'. split; [first [exact Hc | reflexivity]|]. split; [first [exact Hp | reflexivity]|].
    split; [exact H1|exact H2].
Defined.

(** * [utils.cpp]: status strings and unit conversion *)

(** [bit(lsh)]: [0x1 << lsh]; the shifts used are at most 20, so there is no
    overflow of [unsigned int]. *)
Definition bit (lsh : Z) : Z := Z.shiftl 1 lsh.

(** [if (val & mask) { status += delim; status += name; delim = '|'; }] for
    each [(mask, name)] of a table, in table order. *)
Fixpoint append_flags (val : Z) (delim : ascii) (status : string)
    (tbl : list (Z * string)) : string :=
  match tbl with
  | [] => status
  | (m, name) :: tbl' =>
      if negb (Z.land val m =? 0)
      then append_flags val "|"%char (status ++ String delim EmptyString ++ name)%string tbl'
      else append_flags val delim status tbl'
  end.

Definition firewall_table : list (Z * string) :=
  [(bit 0, "READ_RESPONSE_BUSY"); (bit 1, "RECS_ARREADY_MAX_WAIT");
   (bit 2, "RECS_CONTINUOUS_RTRANSFERS_MAX_WAIT"); (bit 3, "ERRS_RDATA_NUM");
   (bit 4, "ERRS_RID"); (bit 16, "WRITE_RESPONSE_BUSY");
   (bit 17, "RECS_AWREADY_MAX_WAIT"); (bit 18, "RECS_WREADY_MAX_WAIT");
   (bit 19, "RECS_WRITE_TO_BVALID_MAX_WAIT"); (bit 20, "ERRS_BRESP")].

(** [xrt_core::utils::parse_firewall_status]. *)
Definition parse_firewall_status (val : Z) : string :=
  let status := append_flags val "("%char EmptyString firewall_table in
  if negb (String.length status =? 0)%nat then (status ++ ")")%string
  else if val =? 0 then "(GOOD)"
  else "(UNKNOWN)".

(** [xrt_core::utils::parse_dna_status]. *)
Definition parse_dna_status (val : Z) : string :=
  let status :=
    if negb (Z.land val (bit 0) =? 0) then (String "("%char EmptyString ++ "PASS")%string
    else (String "("%char EmptyString ++ "FAIL")%string in
  if negb (String.length status =? 0)%nat then (status ++ ")")%string
  else "(UNKNOWN)".

(** [xrt_core::utils::parse_cu_status]; the [CU_AP_*] masks come from the
    ERT header and are left as parameters. *)
Section CuStatus.
Variables CU_AP_START CU_AP_DONE CU_AP_IDLE CU_AP_READY CU_AP_CONTINUE : Z.

Definition cu_table : list (Z * string) :=
  [(CU_AP_START, "START"); (CU_AP_DONE, "DONE"); (CU_AP_IDLE, "IDLE");
   (CU_AP_READY, "READY"); (CU_AP_CONTINUE, "RESTART")].

Definition parse_cu_status (val : Z) : string :=
  if val =? 2 ^ 32 - 1 then "(CRASHED)"      (* std::numeric_limits<uint32_t>::max() *)
  else if val =? 0 then "(--)"
  else
    let status := append_flags val "("%char EmptyString cu_table in
    if negb (String.length status =? 0)%nat then (status ++ ")")%string
    else "(UNKNOWN)".
End CuStatus.

(** ** Decoding the status strings *)

(** The selection [append_flags] makes: one boolean per table entry. *)
Definition flags_of (val : Z) (tbl : list (Z * string)) : list bool :=
  map (fun p => negb (Z.land val (fst p) =? 0)) tbl.

(** [append_flags] driven by a selection instead of a value. *)
Fixpoint append_sel (bs : list bool) (delim : ascii) (status : string)
    (tbl : list (Z * string)) : string :=
  match tbl, bs with
  | (_, name) :: tbl', b :: bs' =>
      if b then append_sel bs' "|"%char (status ++ String delim EmptyString ++ name)%string tbl'
      else append_sel bs' delim status tbl'
  | _, _ => status
  end.

Fixpoint all_bools (n : nat) : list (list bool) :=
  match n with
  | O => [[]]
  | S n' => flat_map (fun bs => [false :: bs; true :: bs]) (all_bools n')
  end.

(** Splitting a status string at its separators [(], [|] and [)]. *)
Fixpoint status_tokens (s cur : string) : list string :=
  match s with
  | EmptyString => [cur]
  | String c s' =>
      if Ascii.eqb c "("%char || Ascii.eqb c "|"%char || Ascii.eqb c ")"%char
      then cur :: status_tokens s' EmptyString
      else status_tokens s' (cur ++ String c EmptyString)%string
  end.

Definition decode_status (tbl : list (Z * string)) (s : string) : list bool :=
  map (fun p => existsb (String.eqb (snd p)) (status_tokens s EmptyString)) tbl.

(** For one selection: the list of names is empty exactly when nothing is
    selected; otherwise, closed by [)], it decodes back to the selection and
    is none of the strings [fixed]. *)
Definition render_ok (tbl : list (Z * string)) (fixed : list string) (bs : list bool) : bool :=
  let r := append_sel bs "("%char EmptyString tbl in
  if existsb id bs then
    negb (String.length r =? 0)%nat &&
    bool_decide (decode_status tbl (r ++ ")")%string = bs) &&
    forallb (fun f => negb (String.eqb (r ++ ")")%string f)) fixed
  else (String.length r =? 0)%nat.

Definition firewall_mask : Z := fold_right Z.lor 0 (map fst firewall_table).

Lemma append_flags_sel val delim status tbl :
  append_flags val delim status tbl = append_sel (flags_of val tbl) delim status tbl.
Proof.
  revert delim status.
  induction tbl as [|[m name] tbl IH]; intros delim status; simpl; [reflexivity|].
  destruct (negb _); apply IH.
Qed.

Lemma length_flags_of val tbl : length (flags_of val tbl) = length tbl.
Proof. apply length_map. Qed.

Lemma all_bools_complete bs : In bs (all_bools (length bs)).
Proof.
  induction bs as [|b bs IH]; simpl; [left; reflexivity|].
  apply in_flat_map. exists bs. split; [exact IH|]. destruct b; simpl; auto.
Qed.

Lemma render_ok_all tbl fixed bs :
  forallb (render_ok tbl fixed) (all_bools (length tbl)) = true ->
  length bs = length tbl -> render_ok tbl fixed bs = true.
Proof.
  intros H Hl. rewrite forallb_forall in H. apply H. rewrite <- Hl.
  apply all_bools_complete.
Qed.

Lemma existsb_false_replicate bs :
  existsb id bs = false -> bs = replicate (length bs) false.
Proof.
  induction bs as [|b bs IH]; simpl; [reflexivity|].
  intros H. apply orb_false_iff in H as [-> H]. rewrite <- IH by exact H. reflexivity.
Qed.

Lemma firewall_render_check :
  forallb (render_ok firewall_table ["(GOOD)"; "(UNKNOWN)"]) (all_bools 10) = true.
Proof. vm_compute. reflexivity. Qed.

Lemma cu_render_check a b c d e :
  forallb (render_ok (cu_table a b c d e) ["(CRASHED)"; "(--)"; "(UNKNOWN)"]) (all_bools 5)
  = true.
Proof. vm_compute. reflexivity. Qed.

(** The facts [render_ok] gives for one selection. *)
Lemma render_ok_facts tbl fixed bs :
  render_ok tbl fixed bs = true ->
  (existsb id bs = false -> append_sel bs "("%char EmptyString tbl = EmptyString) /\
  (existsb id bs = true ->
     append_sel bs "("%char EmptyString tbl <> EmptyString /\
     decode_status tbl (append_sel bs "("%char EmptyString tbl ++ ")")%string = bs /\
     Forall (fun f => (append_sel bs "("%char EmptyString tbl ++ ")")%string <> f) fixed).
Proof.
  unfold render_ok. destruct (existsb id bs); intros H; split; intros E; try discriminate.
  - apply andb_true_iff in H as [H H3]. apply andb_true_iff in H as [H1 H2].
    apply bool_decide_eq_true in H2. split; [|split; [exact H2|]].
    + intros Hr. rewrite Hr in H1. discriminate.
    + rewrite forallb_forall in H3. apply Forall_forall. intros f Hf Heq.
      apply list_elem_of_In in Hf. specialize (H3 f Hf). rewrite Heq, String.eqb_refl in H3.
      discriminate.
  - destruct (append_sel bs _ _ tbl); [reflexivity | discriminate].
Qed.

Lemma land_bit_eqb0 v i : 0 <= i -> (Z.land v (bit i) =? 0) = negb (Z.testbit v i).
Proof.
  intros Hi. unfold bit. rewrite Z.shiftl_1_l.
  destruct (Z.testbit v i) eqn:T; simpl.
  - apply Z.eqb_neq. intros H0.
    assert (Z.testbit (Z.land v (2 ^ i)) i = true) as Hb.
    { rewrite Z.land_spec, T, Z.pow2_bits_true by lia. reflexivity. }
    rewrite H0, Z.bits_0 in Hb. discriminate.
  - apply Z.eqb_eq. apply Z.bits_inj'. intros n Hn.
    rewrite Z.land_spec, Z.bits_0, Z.pow2_bits_eqb by lia.
    destruct (Z.eqb_spec i n); [subst; rewrite T|]; destruct (Z.testbit v n); reflexivity.
Qed.

Definition firewall_bits : list Z := [0; 1; 2; 3; 4; 16; 17; 18; 19; 20].

Lemma flags_firewall v : flags_of v firewall_table = map (Z.testbit v) firewall_bits.
Proof.
  unfold flags_of, firewall_table. simpl.
  rewrite !land_bit_eqb0 by lia. rewrite !negb_involutive. reflexivity.
Qed.

Lemma firewall_mask_bits n :
  Z.testbit firewall_mask n = existsb (Z.eqb n) firewall_bits.
Proof.
  destruct (Z.ltb_spec n 0) as [Hn|Hn].
  - rewrite Z.testbit_neg_r by exact Hn. simpl.
    repeat rewrite (proj2 (Z.eqb_neq _ _)) by lia. reflexivity.
  - destruct (Z.ltb_spec n 21) as [Hn'|Hn'].
    + rewrite <- (Z2Nat.id n) by exact Hn.
      assert (Hm : (Z.to_nat n < 21)%nat) by lia. revert Hm.
      generalize (Z.to_nat n) as m. intros m Hm.
      do 21 (destruct m as [|m]; [reflexivity|]). lia.
    + rewrite Z.bits_above_log2;
        [| vm_compute; discriminate | change (Z.log2 firewall_mask) with 20; lia].
      simpl. repeat rewrite (proj2 (Z.eqb_neq _ _)) by lia. reflexivity.
Qed.

Lemma land_mask_bits_eq v1 v2 m :
  Z.land v1 m = Z.land v2 m <->
  (forall i, 0 <= i -> Z.testbit m i = true -> Z.testbit v1 i = Z.testbit v2 i).
Proof.
  split.
  - intros H i Hi Hm. pose proof (f_equal (fun x => Z.testbit x i) H) as Hb. simpl in Hb.
    rewrite !Z.land_spec, Hm, !andb_true_r in Hb. exact Hb.
  - intros H. apply Z.bits_inj'. intros i Hi. rewrite !Z.land_spec.
    destruct (Z.testbit m i) eqn:Hm; [rewrite (H i Hi Hm); reflexivity|].
    rewrite !andb_false_r. reflexivity.
Qed.

Lemma flags_firewall_eq v1 v2 :
  flags_of v1 firewall_table = flags_of v2 firewall_table <->
  Z.land v1 firewall_mask = Z.land v2 firewall_mask.
Proof.
  rewrite !flags_firewall, land_mask_bits_eq. split.
  - intros H i Hi Hm. rewrite firewall_mask_bits in Hm. simpl in H.
    injection H as H0 H1 H2 H3 H4 H5 H6 H7 H8 H9. simpl in Hm.
    repeat (apply orb_true_iff in Hm as [Hm|Hm]; [apply Z.eqb_eq in Hm; subst; assumption|]).
    discriminate.
  - intros H. unfold firewall_bits. cbn [map].
    repeat (apply f_equal2; [apply H; [lia | reflexivity] |]). reflexivity.
Qed.

Lemma parse_firewall_status_sel v :
  parse_firewall_status v =
    if existsb id (flags_of v firewall_table)
    then (append_sel (flags_of v firewall_table) "("%char EmptyString firewall_table ++ ")")%string
    else if v =? 0 then "(GOOD)" else "(UNKNOWN)".
Proof.
  unfold parse_firewall_status. rewrite append_flags_sel.
  pose proof (render_ok_facts _ _ _ (render_ok_all _ _ (flags_of v firewall_table)
                firewall_render_check (length_flags_of _ _))) as [F T].
  destruct (existsb id (flags_of v firewall_table)).
  - destruct (T eq_refl) as [Hne _].
    destruct (append_sel _ _ _ firewall_table); [congruence | reflexivity].
  - rewrite (F eq_refl). reflexivity.
Qed.

Lemma flags_firewall_some v : existsb id (flags_of v firewall_table) = true -> v <> 0.
Proof. intros H ->. vm_compute in H. discriminate. Qed.

Lemma firewall_status_eq_iff v1 v2 :
  parse_firewall_status v1 = parse_firewall_status v2 <->
  Z.land v1 firewall_mask = Z.land v2 firewall_mask /\ (v1 = 0 <-> v2 = 0).
Proof.
  rewrite <- flags_firewall_eq, !parse_firewall_status_sel.
  pose proof (render_ok_facts _ _ _ (render_ok_all _ _ (flags_of v1 firewall_table)
                firewall_render_check (length_flags_of _ _))) as [F1 T1].
  pose proof (render_ok_facts _ _ _ (render_ok_all _ _ (flags_of v2 firewall_table)
                firewall_render_check (length_flags_of _ _))) as [F2 T2].
  pose proof (flags_firewall_some v1) as S1. pose proof (flags_firewall_some v2) as S2.
  destruct (existsb id (flags_of v1 firewall_table)) eqn:E1,
           (existsb id (flags_of v2 firewall_table)) eqn:E2.
  - destruct (T1 eq_refl) as (_ & D1 & _). destruct (T2 eq_refl) as (_ & D2 & _).
    specialize (S1 eq_refl). specialize (S2 eq_refl). split.
    + intros H. rewrite <- D1, <- D2, H. split; [reflexivity | tauto].
    + intros [-> _]. reflexivity.
  - destruct (T1 eq_refl) as (_ & _ & N1). apply Forall_cons in N1 as [Ng N1].
    apply Forall_cons in N1 as [Nu _]. split.
    + destruct (v2 =? 0); intros H; congruence.
    + intros [H _]. rewrite H in E1. congruence.
  - destruct (T2 eq_refl) as (_ & _ & N2). apply Forall_cons in N2 as [Ng N2].
    apply Forall_cons in N2 as [Nu _]. split.
    + destruct (v1 =? 0); intros H; congruence.
    + intros [H _]. rewrite H in E1. congruence.
  - apply existsb_false_replicate in E1, E2. rewrite !length_flags_of in E1, E2.
    rewrite E1, E2.
    destruct (Z.eqb_spec v1 0), (Z.eqb_spec v2 0); split; intros; try tauto;
      try discriminate; split; try reflexivity; tauto.
Qed.

(** [parse_firewall_status] reports ["(GOOD)"] exactly for 0 and
    ["(UNKNOWN)"] exactly for a non-zero value with none of the ten known
    bits (0-4 and 16-20) set; two values give the same string exactly when
    they have the same known bits and are both zero or both non-zero, so the
    string tells which known bits are set. *)
Theorem parse_firewall_status_decodes v1 v2 :
  (parse_firewall_status v1 = "(GOOD)" <-> v1 = 0) /\
  (parse_firewall_status v1 = "(UNKNOWN)" <-> v1 <> 0 /\ Z.land v1 firewall_mask = 0) /\
  (parse_firewall_status v1 = parse_firewall_status v2 <->
     Z.land v1 firewall_mask = Z.land v2 firewall_mask /\ (v1 = 0 <-> v2 = 0)).
Proof.
  split; [|split; [|apply firewall_status_eq_iff]].
  - change "(GOOD)" with (parse_firewall_status 0). rewrite firewall_status_eq_iff.
    change (Z.land 0 firewall_mask) with 0.
    split; [tauto|]. intros ->. split; [reflexivity | tauto].
  - change "(UNKNOWN)" with (parse_firewall_status 32). rewrite firewall_status_eq_iff.
    change (Z.land 32 firewall_mask) with 0. split.
    + intros [H1 H2]. split; [|exact H1]. intros ->. discriminate (proj1 H2 eq_refl).
    + intros [H1 H2]. split; [exact H2|]. split; intros H; [contradiction | discriminate].
Qed.

(** [parse_dna_status] reports ["(PASS)"] for odd values and ["(FAIL)"] for
    even ones: its ["(UNKNOWN)"] branch is never taken. *)
Theorem parse_dna_status_pass_fail v :
  parse_dna_status v = (if Z.odd v then "(PASS)" else "(FAIL)") /\
  parse_dna_status v <> "(UNKNOWN)".
Proof.
  assert (parse_dna_status v = (if Z.odd v then "(PASS)" else "(FAIL)")) as H.
  { unfold parse_dna_status. rewrite land_bit_eqb0 by lia. rewrite Z.bit0_odd.
    destruct (Z.odd v); reflexivity. }
  split; [exact H|]. rewrite H. destruct (Z.odd v); discriminate.
Qed.

Lemma flags_cu_none a b c d e v :
  existsb id (flags_of v (cu_table a b c d e)) = false <->
  Forall (fun m => Z.land v m = 0) [a; b; c; d; e].
Proof.
  unfold flags_of, cu_table. simpl. rewrite !Forall_cons.
  rewrite !orb_false_iff, !negb_false_iff, !Z.eqb_eq.
  split; [intros (? & ? & ? & ? & ? & _); repeat split; auto|].
  intros (? & ? & ? & ? & ? & _). repeat split; auto.
Qed.

(** For any values of the [CU_AP_*] masks, [parse_cu_status] reports
    ["(CRASHED)"] exactly for [0xFFFFFFFF], ["(--)"] exactly for 0, and
    ["(UNKNOWN)"] exactly for any other value sharing no bit with the five
    masks. *)
Theorem parse_cu_status_classes a b c d e v :
  (parse_cu_status a b c d e v = "(CRASHED)" <-> v = 2 ^ 32 - 1) /\
  (parse_cu_status a b c d e v = "(--)" <-> v = 0) /\
  (parse_cu_status a b c d e v = "(UNKNOWN)" <->
     v <> 2 ^ 32 - 1 /\ v <> 0 /\ Forall (fun m => Z.land v m = 0) [a; b; c; d; e]).
Proof.
  rewrite <- flags_cu_none. unfold parse_cu_status. rewrite append_flags_sel.
  pose proof (render_ok_facts _ _ _ (render_ok_all _ _ (flags_of v (cu_table a b c d e))
                (cu_render_check a b c d e) (length_flags_of _ _))) as [F T].
  destruct (Z.eqb_spec v (2 ^ 32 - 1)) as [->|Hm].
  { repeat split; intros; try discriminate; try lia; try reflexivity; tauto. }
  destruct (Z.eqb_spec v 0) as [->|H0].
  { repeat split; intros; try discriminate; try lia; try reflexivity; tauto. }
  destruct (existsb id (flags_of v (cu_table a b c d e))) eqn:E.
  - destruct (T eq_refl) as (Hne & _ & N).
    apply Forall_cons in N as [N1 N]. apply Forall_cons in N as [N2 N].
    apply Forall_cons in N as [N3 _].
    set (r := append_sel _ _ _ (cu_table a b c d e)) in *.
    assert ((String.length r =? 0)%nat = false) as Hl by (destruct r; [congruence | reflexivity]).
    rewrite Hl. unfold negb.
    split; [|split]; split; intros Hx; try contradiction; try lia.
    all: destruct Hx as (_ & _ & Hx); discriminate.
  - rewrite (F eq_refl). simpl.
    repeat split; intros; try discriminate; try tauto; lia.
Qed.

(** ** [unit_convert] *)

Definition units : list string := ["Byte"; "KB"; "MB"; "GB"; "TB"; "PB"; "EB"; "ZB"].

(** [while ((size >> bit_shift) != 0 && i < 8) { ret = std::to_string(size);
    size >>= 10; i++; }]; the loop runs at most 8 turns, which [fuel]
    bounds. *)
Fixpoint unit_loop (fuel : nat) (size bit_shift : Z) (i : nat) (ret : string)
    : string * nat :=
  match fuel with
  | O => (ret, i)
  | S fuel' =>
      if negb (Z.shiftr size bit_shift =? 0) && (i <? 8)%nat
      then unit_loop fuel' (Z.shiftr size 10) bit_shift (S i) (pretty size)
      else (ret, i)
  end.

(** [xrt_core::utils::unit_convert] on a [size_t] [size]; [None] would be
    the read of [unit[i-1]] with [i = 0]. *)
Definition unit_convert (size : Z) : option string :=
  if size <? 64 then Some (pretty size ++ " " ++ "Byte")%string
  else
    let bit_shift := if Z.land size (size - 1) =? 0 then 0 else 6 in
    let (ret, i) := unit_loop 8 size bit_shift 0 EmptyString in
    match i with
    | O => None
    | S i' => (fun u => ret ++ " " ++ u)%string <$> units !! i'
    end.

Lemma shiftr_zero_iff a n : 0 <= a -> 0 <= n -> Z.shiftr a n = 0 <-> a < 2 ^ n.
Proof.
  intros Ha Hn. rewrite Z.shiftr_div_pow2 by exact Hn.
  pose proof (Z.pow_pos_nonneg 2 n ltac:(lia) Hn) as Hp.
  split; intros H.
  - destruct (Z.ltb_spec a (2 ^ n)); [assumption|].
    assert (1 <= a / 2 ^ n) by (apply Z.div_le_lower_bound; lia). lia.
  - apply Z.div_small. lia.
Qed.

Lemma unit_loop_spec fuel size b i ret :
  0 <= size -> 0 <= b -> (i + fuel = 8)%nat ->
  Z.shiftr size b <> 0 -> size < 2 ^ (10 * Z.of_nat fuel + b) ->
  exists k, (k < fuel)%nat /\
    unit_loop fuel size b i ret = (pretty (Z.shiftr size (10 * Z.of_nat k)), (i + k + 1)%nat) /\
    Z.shiftr (Z.shiftr size (10 * Z.of_nat k)) b <> 0 /\
    Z.shiftr (Z.shiftr size (10 * Z.of_nat (S k))) b = 0.
Proof.
  revert size i ret. induction fuel as [|fuel IH]; intros size i ret Hs Hb Hi Hne Hlt.
  - exfalso. apply Hne. apply shiftr_zero_iff; [lia | lia |].
    replace (10 * Z.of_nat 0 + b) with b in Hlt by lia. exact Hlt.
  - simpl. assert (Hi8 : (i <? 8)%nat = true) by (apply Nat.ltb_lt; lia).
    rewrite Hi8. apply Z.eqb_neq in Hne as Hne'. rewrite Hne'. simpl.
    assert (Hs' : 0 <= Z.shiftr size 10) by (apply Z.shiftr_nonneg; lia).
    destruct (Z.eqb_spec (Z.shiftr (Z.shiftr size 10) b) 0) as [H0|H0].
    + exists 0%nat. split; [lia|].
      replace (10 * Z.of_nat 0) with 0 by lia. replace (10 * Z.of_nat 1) with 10 by lia.
      rewrite Z.shiftr_0_r. split; [|split; [exact Hne | exact H0]].
      destruct fuel; simpl; [f_equal; lia|]. rewrite H0. simpl. f_equal. lia.
    + destruct (IH (Z.shiftr size 10) (S i) (pretty size)) as (k & Hk & E & N & Z0);
        [exact Hs' | exact Hb | lia | exact H0 | |].
      * rewrite Z.shiftr_div_pow2 by lia. apply Z.div_lt_upper_bound; [lia|].
        rewrite <- Z.pow_add_r by lia. replace (2 ^ 10 * 2 ^ (10 * Z.of_nat fuel + b)) with
          (2 ^ (10 + (10 * Z.of_nat fuel + b))) by (rewrite Z.pow_add_r by lia; reflexivity).
        replace (10 + (10 * Z.of_nat fuel + b)) with (10 * Z.of_nat (S fuel) + b) by lia.
        exact Hlt.
      * assert (Ek : forall m, Z.shiftr (Z.shiftr size 10) (10 * Z.of_nat m)
                              = Z.shiftr size (10 * Z.of_nat (S m)))
          by (intros m; rewrite Z.shiftr_shiftr by lia; f_equal; lia).
        rewrite !Ek in E, N, Z0. exists (S k). split; [lia|]. rewrite E.
        split; [f_equal; lia|]. split; assumption.
Qed.

Lemma unit_convert_spec size :
  64 <= size < 2 ^ 64 ->
  exists k u, (k < 7)%nat /\ units !! k = Some u /\
    unit_convert size = Some (pretty (Z.shiftr size (10 * Z.of_nat k)) ++ " " ++ u)%string /\
    2 ^ (if Z.land size (size - 1) =? 0 then 0 else 6) <= Z.shiftr size (10 * Z.of_nat k)
      < 2 ^ (10 + if Z.land size (size - 1) =? 0 then 0 else 6).
Proof.
  intros Hs. unfold unit_convert.
  destruct (Z.ltb_spec size 64); [lia|].
  set (b := if Z.land size (size - 1) =? 0 then 0 else 6).
  assert (Hb : b = 0 \/ b = 6) by (unfold b; destruct (_ =? 0); auto).
  assert (Hb2 : 2 ^ b <= 64) by (destruct Hb as [-> | ->]; cbn; lia).
  destruct (unit_loop_spec 8 size b 0 EmptyString) as (k & Hk & E & N & Z0).
  - lia.
  - lia.
  - reflexivity.
  - intros H0. apply shiftr_zero_iff in H0; lia.
  - apply Z.lt_le_trans with (2 ^ 64); [lia|]. apply Z.pow_le_mono_r; lia.
  - rewrite E. replace (0 + k + 1)%nat with (S k) by lia.
    assert (Hd : 0 <= Z.shiftr size (10 * Z.of_nat k)) by (apply Z.shiftr_nonneg; lia).
    assert (Hlo : 2 ^ b <= Z.shiftr size (10 * Z.of_nat k)).
    { destruct (Z.ltb_spec (Z.shiftr size (10 * Z.of_nat k)) (2 ^ b)); [|assumption].
      exfalso. apply N. apply shiftr_zero_iff; lia. }
    assert (Hhi : Z.shiftr size (10 * Z.of_nat k) < 2 ^ (10 + b)).
    { replace (10 * Z.of_nat (S k)) with (10 * Z.of_nat k + 10) in Z0 by lia.
      rewrite <- Z.shiftr_shiftr in Z0 by lia.
      apply shiftr_zero_iff in Z0; [| apply Z.shiftr_nonneg; lia | lia].
      rewrite Z.shiftr_div_pow2 in Z0 by lia.
      destruct (Z.ltb_spec (Z.shiftr size (10 * Z.of_nat k)) (2 ^ (10 + b))); [assumption|].
      exfalso. rewrite Z.pow_add_r in * by lia.
      assert (2 ^ b <= Z.shiftr size (10 * Z.of_nat k) / 2 ^ 10)
        by (apply Z.div_le_lower_bound; lia). lia. }
    assert (Hk7 : (k < 7)%nat).
    { destruct (Nat.eq_dec k 7) as [->|]; [|lia]. exfalso.
      rewrite Z.shiftr_div_pow2 in Hlo by lia.
      assert (Hp : 0 < 2 ^ b) by (apply Z.pow_pos_nonneg; lia).
      assert (H1 : 1 <= size / 2 ^ (10 * Z.of_nat 7)) by lia.
      rewrite Z.div_small in H1; [lia|].
      split; [lia|]. apply Z.lt_le_trans with (2 ^ 64); [lia|].
      apply Z.pow_le_mono_r; lia. }
    destruct (lookup_lt_is_Some_2 units k) as [u Hu]; [simpl; lia|].
    exists k, u. rewrite Hu. simpl. auto.
Qed.

Lemma land_pow2_pred n : 0 <= n -> Z.land (2 ^ n) (2 ^ n - 1) = 0.
Proof.
  intros Hn. replace (2 ^ n - 1) with (Z.ones n) by (rewrite Z.ones_equiv; lia).
  apply Z.bits_inj'. intros i Hi.
  rewrite Z.land_spec, Z.bits_0, Z.pow2_bits_eqb by lia.
  destruct (Z.eqb_spec n i) as [->|]; [|reflexivity].
  rewrite Z.ones_spec_high by lia. reflexivity.
Qed.

Lemma shiftr_pow2 n m : 0 <= m <= n -> Z.shiftr (2 ^ n) m = 2 ^ (n - m).
Proof.
  intros Hm. rewrite Z.shiftr_div_pow2 by lia. rewrite Z.pow_sub_r; lia.
Qed.

(** [unit_convert] on a 64-bit [size]: below 64 bytes the exact count with
    unit [Byte]; from 64 on, the value [size >> 10k] printed with the [k]-th
    unit, [k] below 7 (so [ZB] and the read of [unit[-1]] never occur), and
    the printed value lies in [1, 1024) when [size] is a power of two and in
    [64, 65536) otherwise. *)
Lemma unit_convert_display size :
  0 <= size < 2 ^ 64 ->
  (size < 64 -> unit_convert size = Some (pretty size ++ " Byte")%string) /\
  (64 <= size -> exists k u, (k < 7)%nat /\ units !! k = Some u /\
     unit_convert size = Some (pretty (Z.shiftr size (10 * Z.of_nat k)) ++ " " ++ u)%string /\
     (if Z.land size (size - 1) =? 0
      then 1 <= Z.shiftr size (10 * Z.of_nat k) < 1024
      else 64 <= Z.shiftr size (10 * Z.of_nat k) < 65536)).
Proof.
  intros Hs. split.
  - intros Hlt. unfold unit_convert. destruct (Z.ltb_spec size 64); [reflexivity | lia].
  - intros Hge. destruct (unit_convert_spec size) as (k & u & Hk & Hu & E & Hd); [lia|].
    exists k, u. split; [exact Hk|]. split; [exact Hu|]. split; [exact E|].
    destruct (Z.land size (size - 1) =? 0); cbn in Hd; lia.
Qed.

(** On a power of two [2^n] with [6 <= n < 64], [unit_convert] prints
    [2^(n mod 10)] followed by the unit of index [n / 10]. *)
Lemma unit_convert_pow2 n :
  6 <= n < 64 ->
  exists u, units !! Z.to_nat (n / 10) = Some u /\
    unit_convert (2 ^ n) = Some (pretty (2 ^ (n mod 10)) ++ " " ++ u)%string.
Proof.
  intros Hn.
  assert (H64 : 64 <= 2 ^ n) by (change 64 with (2 ^ 6); apply Z.pow_le_mono_r; lia).
  assert (Hlt : 2 ^ n < 2 ^ 64) by (apply Z.pow_lt_mono_r; lia).
  destruct (unit_convert_spec (2 ^ n)) as (k & u & Hk & Hu & E & Hd); [lia|].
  rewrite land_pow2_pred in Hd by lia. cbn in Hd.
  destruct (Z.le_gt_cases (10 * Z.of_nat k) n) as [Hle|Hgt].
  - rewrite shiftr_pow2 in E, Hd by lia.
    assert (Hr : n - 10 * Z.of_nat k < 10).
    { destruct (Z.ltb_spec (n - 10 * Z.of_nat k) 10); [assumption|].
      assert (2 ^ 10 <= 2 ^ (n - 10 * Z.of_nat k)) by (apply Z.pow_le_mono_r; lia).
      cbn in *; lia. }
    assert (Hq : n / 10 = Z.of_nat k)
      by (symmetry; apply Z.div_unique_pos with (n - 10 * Z.of_nat k); lia).
    assert (Hm : n mod 10 = n - 10 * Z.of_nat k)
      by (symmetry; apply Z.mod_unique_pos with (Z.of_nat k); lia).
    exists u. rewrite Hq, Nat2Z.id, Hm. split; assumption.
  - exfalso. rewrite Z.shiftr_div_pow2 in Hd by lia.
    rewrite Z.div_small in Hd; [lia|]. split; [lia|]. apply Z.pow_lt_mono_r; lia.
Qed.

Lemma unit_convert_display_witness :
  (65535 < 64 -> unit_convert 65535 = Some (pretty 65535 ++ " Byte")%string) /\
  (64 <= 65535 -> exists k u, (k < 7)%nat /\ units !! k = Some u /\
     unit_convert 65535 = Some (pretty (Z.shiftr 65535 (10 * Z.of_nat k)) ++ " " ++ u)%string /\
     (if Z.land 65535 (65535 - 1) =? 0
      then 1 <= Z.shiftr 65535 (10 * Z.of_nat k) < 1024
      else 64 <= Z.shiftr 65535 (10 * Z.of_nat k) < 65536)).
Proof.
  apply (unit_convert_display 65535). split; [lia | reflexivity].
Defined.

Lemma unit_convert_pow2_witness :
  exists u, units !! Z.to_nat (20 / 10) = Some u /\
    unit_convert (2 ^ 20) = Some (pretty (2 ^ (20 mod 10)) ++ " " ++ u)%string.
Proof.
  apply (unit_convert_pow2 20). lia.
Defined.

(** ** Number parsing of the C++ library ([std::stoul], [std::stoll])

    The queries of [query_requests.cpp] read sysfs strings with [std::stoul]
    and [std::stoll]: these call [strtoul]/[strtoll] of the C library, which
    skip leading white space, take an optional sign, then read the longest
    run of digits of the base; [std::invalid_argument] is thrown when no
    digit was read and [std::out_of_range] when the value does not fit. *)

Inductive conv_exn := invalid_argument | out_of_range.

(** [isspace] in the C locale. *)
Definition is_space (c : ascii) : bool :=
  match nat_of_ascii c with
  | 9 | 10 | 11 | 12 | 13 | 32 => true
  | _ => false
  end%nat.

Definition dec_digit (c : ascii) : option Z :=
  let n := Z.of_nat (nat_of_ascii c) in
  if (48 <=? n) && (n <=? 57) then Some (n - 48) else None.

Definition hex_digit (c : ascii) : option Z :=
  let n := Z.of_nat (nat_of_ascii c) in
  if (48 <=? n) && (n <=? 57) then Some (n - 48)
  else if (97 <=? n) && (n <=? 102) then Some (n - 87)
  else if (65 <=? n) && (n <=? 70) then Some (n - 55)
  else None.

Definition is_hex (c : ascii) : bool :=
  match hex_digit c with Some _ => true | None => false end.

Fixpoint skip_space (s : string) : string :=
  match s with
  | String c s' => if is_space c then skip_space s' else s
  | EmptyString => EmptyString
  end.

(** The optional sign: [true] for a minus. *)
Definition read_sign (s : string) : bool * string :=
  match s with
  | String c s' =>
      if Ascii.eqb c "-"%char then (true, s')
      else if Ascii.eqb c "+"%char then (false, s') else (false, s)
  | EmptyString => (false, s)
  end.

(** In base 16 a [0x] or [0X] prefix is skipped when a digit follows it. *)
Definition skip_hex_prefix (s : string) : string :=
  match s with
  | String z (String x (String c s')) =>
      if Ascii.eqb z "0"%char && (Ascii.eqb x "x"%char || Ascii.eqb x "X"%char) && is_hex c
      then String c s' else s
  | _ => s
  end.

(** The longest run of digits: the value accumulated onto [acc], and the
    number of digits read added to [n]. *)
Fixpoint read_digits (digit : ascii -> option Z) (base acc : Z) (n : nat) (s : string)
    : Z * nat :=
  match s with
  | String c s' =>
      match digit c with
      | Some d => read_digits digit base (base * acc + d) (S n) s'
      | None => (acc, n)
      end
  | EmptyString => (acc, n)
  end.

(** [std::stoul(value, nullptr, 16)] with a 64-bit [unsigned long]: a
    magnitude above [ULONG_MAX] is out of range, a minus sign negates
    modulo 2^64. *)
Definition stoul16 (value : string) : conv_exn + Z :=
  let '(neg, s) := read_sign (skip_space value) in
  let '(v, n) := read_digits hex_digit 16 0 0 (skip_hex_prefix s) in
  if (n =? 0)%nat then inl invalid_argument
  else if 2 ^ 64 <=? v then inl out_of_range
  else inr (if neg then (- v) mod 2 ^ 64 else v).

(** [std::stoll(value)] (base 10, 64-bit [long long]): the value must lie in
    [[LLONG_MIN, LLONG_MAX]]. *)
Definition stoll (value : string) : conv_exn + Z :=
  let '(neg, s) := read_sign (skip_space value) in
  let '(v, n) := read_digits dec_digit 10 0 0 s in
  let r := if neg then - v else v in
  if (n =? 0)%nat then inl invalid_argument
  else if (r <? - 2 ^ 63) || (2 ^ 63 - 1 <? r) then inl out_of_range
  else inr r.

(** ** [xrt_core::query::oem_id::parse] *)

Definition oemid_map : gmap Z string :=
  list_to_map [(0x10da, "Xilinx"); (0x02a2, "Dell"); (0x12a1, "IBM"); (0xb85c, "HP");
               (0x2a7c, "Super Micro"); (0x4a66, "Lenovo"); (0xbd80, "Inspur");
               (0x12eb, "Amazon"); (0x2b79, "Google")].

(** The [unsigned int] [oem_id_val] converted to the [int] key of the map. *)
Definition int_of_uint (u : Z) : Z := if u <? 2 ^ 31 then u else u - 2 ^ 32.

Definition oem_lookup (oem_id_val : Z) : string :=
  match oemid_map !! int_of_uint oem_id_val with
  | Some s => s
  | None => "N/A"
  end.

(** The [unsigned long] of [std::stoul] is truncated to the [unsigned int]
    [oem_id_val]; an exception of the conversion gives ["N/A"]. *)
Definition oem_id_parse (value : string) : string :=
  match stoul16 value with
  | inl _ => "N/A"
  | inr v => oem_lookup (v mod 2 ^ 32)
  end.

(** Rendering of digits, and the predicates on strings that the statements
    about the parsers use. *)




Fixpoint all_chars (p : ascii -> bool) (s : string) : bool :=
  match s with
  | String c s' => p c && all_chars p s'
  | EmptyString => true
  end.

(** [s] is empty or starts with a character that [p] rejects. *)
Definition starts_outside (p : ascii -> bool) (s : string) : bool :=
  match s with
  | String c _ => negb (p c)
  | EmptyString => true
  end.

Definition is_sign (c : ascii) : bool := Ascii.eqb c "-"%char || Ascii.eqb c "+"%char.


Lemma skip_space_app ws s :
  all_chars is_space ws = true -> skip_space (ws ++ s)%string = skip_space s.
Proof.
  induction ws as [|c ws IH]; simpl; [reflexivity|].
  intros H. apply andb_true_iff in H as [-> H]. exact (IH H).
Qed.

Lemma skip_space_stop c s : is_space c = false -> skip_space (String c s) = String c s.
Proof. simpl. intros ->. reflexivity. Qed.




Lemma read_sign_other c s : is_sign c = false -> read_sign (String c s) = (false, String c s).
Proof.
  unfold is_sign. intros H. apply orb_false_iff in H as [H1 H2].
  cbv beta iota delta [read_sign]. rewrite H1, H2. reflexivity.
Qed.





Lemma hex_no_digit rest :
  starts_outside is_hex rest = true ->
  read_digits hex_digit 16 0 0 (skip_hex_prefix rest) = (0, 0%nat).
Proof.
  destruct rest as [|c r]; [reflexivity|]. intros H. simpl in H.
  apply negb_true_iff in H.
  assert (Hk : skip_hex_prefix (String c r) = String c r).
  { destruct r as [|x [|c' r']]; try reflexivity.
    cbv beta iota delta [skip_hex_prefix].
    destruct (Ascii.eqb_spec c "0"%char) as [->|]; [discriminate | reflexivity]. }
  rewrite Hk. simpl. unfold is_hex in H. destruct (hex_digit c); [discriminate | reflexivity].
Qed.

(** [oem_id::parse] gives ["N/A"] when no hex digit comes where
    [std::stoul] expects the first one (it throws [std::invalid_argument]):
    white space, an optional sign, then the end of the string or a
    character that is no hex digit, no white space and no sign. *)
Theorem oem_id_parse_no_digits (ws sign rest : string) :
  all_chars is_space ws = true -> sign = EmptyString \/ sign = "-" \/ sign = "+" ->
  starts_outside (fun c => is_hex c || is_space c || is_sign c) rest = true ->
  oem_id_parse (ws ++ sign ++ rest)%string = "N/A".
Proof.
  intros Hws Hsg Hr. unfold oem_id_parse, stoul16. rewrite skip_space_app by exact Hws.
  assert (Hr' : starts_outside is_hex rest = true).
  { destruct rest as [|c r]; [reflexivity|]. simpl in *.
    destruct (is_hex c); [discriminate | reflexivity]. }
  assert (Hs : exists neg, read_sign (skip_space (sign ++ rest)%string) = (neg, rest)).
  { destruct Hsg as [-> | [-> | ->]]; [|exists true; reflexivity | exists false; reflexivity].
    exists false. destruct rest as [|c r]; [reflexivity|]. simpl in Hr.
    rewrite !negb_orb in Hr. apply andb_true_iff in Hr as [Hr Hg].
    apply andb_true_iff in Hr as [_ Hsp]. apply negb_true_iff in Hsp, Hg.
    change ((EmptyString ++ String c r)%string) with (String c r).
    rewrite skip_space_stop by exact Hsp. apply read_sign_other. exact Hg. }
  destruct Hs as [neg ->]. rewrite hex_no_digit by exact Hr'. reflexivity.
Qed.


Lemma oem_id_parse_no_digits_witness : oem_id_parse (" " ++ "-" ++ "N/A")%string = "N/A".
Proof.
  apply (oem_id_parse_no_digits " " "-" "N/A").
  - reflexivity.
  - right. left. reflexivity.
  - reflexivity.
Defined.

(** ** [xrt_core::query::p2p_config::parse] *)

Inductive p2p_value := p2p_disabled | p2p_enabled | p2p_error | p2p_reboot | p2p_not_supported.

(** [val.find(key) == 0]. *)
Definition found_at_0 (key val : string) : bool :=
  match String.index 0 key val with Some O => true | _ => false end.

(** The loop over the entries of [config], with the four values [bar],
    [rbar], [remap] and [exp_bar]: [pos] is one past the first [':'] of the
    entry, or 0 when there is none ([npos + 1] wraps to 0); the exception of
    [std::stoll] leaves [parse]. *)
Fixpoint p2p_scan (config : list string) (bar rbar remap exp_bar : Z)
    : conv_exn + (Z * Z * Z * Z) :=
  match config with
  | [] => inr (bar, rbar, remap, exp_bar)
  | val :: config' =>
      let pos := match String.index 0 ":" val with Some k => S k | None => O end in
      let num := stoll (String.substring pos (String.length val - pos) val) in
      if found_at_0 "rbar" val then
        match num with inl x => inl x | inr v => p2p_scan config' bar v remap exp_bar end
      else if found_at_0 "exp_bar" val then
        match num with inl x => inl x | inr v => p2p_scan config' bar rbar remap v end
      else if found_at_0 "bar" val then
        match num with inl x => inl x | inr v => p2p_scan config' v rbar remap exp_bar end
      else if found_at_0 "remap" val then
        match num with inl x => inl x | inr v => p2p_scan config' bar rbar v exp_bar end
      else p2p_scan config' bar rbar remap exp_bar
  end.

Definition p2p_config_parse (config : list string) : conv_exn + (p2p_value * string) :=
  match p2p_scan config (-1) (-1) (-1) (-1) with
  | inl x => inl x
  | inr (bar, rbar, remap, exp_bar) =>
      inr (if bar =? -1 then
             (p2p_not_supported, "P2P config failed. P2P is not supported. Can't find P2P BAR.")
           else if negb (rbar =? -1) && (bar <? rbar) then
             (p2p_reboot, "Warning:Please WARM reboot to enable p2p now.")
           else if (0 <? remap) && negb (remap =? bar) then
             (p2p_error, "Error:P2P config failed. P2P remapper is not set correctly")
           else if bar =? exp_bar then (p2p_enabled, EmptyString)
           else (p2p_disabled, "P2P bar is not enabled"))
  end.

Lemma p2p_scan_app l1 l2 bar rbar remap exp_bar :
  p2p_scan (l1 ++ l2) bar rbar remap exp_bar
  = match p2p_scan l1 bar rbar remap exp_bar with
    | inl x => inl x
    | inr (bar', rbar', remap', exp_bar') => p2p_scan l2 bar' rbar' remap' exp_bar'
    end.
Proof.
  revert bar rbar remap exp_bar.
  induction l1 as [|val l1 IH]; intros bar rbar remap exp_bar; [reflexivity|].
  simpl. destruct (found_at_0 "rbar" val); [|destruct (found_at_0 "exp_bar" val);
    [|destruct (found_at_0 "bar" val); [|destruct (found_at_0 "remap" val)]]];
    try destruct (stoll _); auto.
Qed.

Lemma found_at_0_prefix k val : k <> EmptyString -> found_at_0 k val = String.prefix k val.
Proof.
  intros Hk. destruct val as [|c v].
  - destruct k; [congruence | reflexivity].
  - unfold found_at_0.
    change (String.index 0 k (String c v)) with
      (if String.prefix k (String c v) then Some 0%nat
       else match String.index 0 k v with Some n => Some (S n) | None => None end).
    destruct (String.prefix k (String c v)); [reflexivity|].
    destruct (String.index 0 k v); reflexivity.
Qed.

(** Entries starting with none of the four keys leave the scan unchanged. *)
Lemma p2p_scan_other_entries junk bar rbar remap exp_bar :
  Forall (fun val => String.prefix "rbar" val = false /\ String.prefix "exp_bar" val = false /\
                     String.prefix "bar" val = false /\ String.prefix "remap" val = false) junk ->
  p2p_scan junk bar rbar remap exp_bar = inr (bar, rbar, remap, exp_bar).
Proof.
  induction junk as [|val junk IH]; intros H; [reflexivity|].
  apply Forall_cons in H as [(H1 & H2 & H3 & H4) H]. simpl.
  rewrite !found_at_0_prefix by discriminate. rewrite H1, H2, H3, H4. exact (IH H).
Qed.

(** Entries that start with none of the keys [rbar], [exp_bar], [bar] and
    [remap] have no effect on [p2p_config::parse], wherever they are in the
    configuration. *)
Theorem p2p_config_parse_ignores_other_entries l1 junk l2 :
  Forall (fun val => String.prefix "rbar" val = false /\ String.prefix "exp_bar" val = false /\
                     String.prefix "bar" val = false /\ String.prefix "remap" val = false) junk ->
  p2p_config_parse (l1 ++ junk ++ l2) = p2p_config_parse (l1 ++ l2).
Proof.
  intros H. unfold p2p_config_parse. rewrite !p2p_scan_app.
  destruct (p2p_scan l1 _ _ _ _) as [x|[[[bar rbar] remap] exp_bar]]; [reflexivity|].
  rewrite p2p_scan_app, p2p_scan_other_entries by exact H. reflexivity.
Qed.

(** An entry that is a key alone, or a key and [':'] with nothing after it,
    makes [p2p_config::parse] throw [std::invalid_argument] from
    [std::stoll], unless an earlier entry has already thrown. *)
Theorem p2p_config_parse_missing_number l1 key val l2 :
  In key ["rbar"; "exp_bar"; "bar"; "remap"] -> val = key \/ val = (key ++ ":")%string ->
  p2p_config_parse (l1 ++ val :: l2)
  = match p2p_scan l1 (-1) (-1) (-1) (-1) with
    | inl x => inl x
    | inr _ => inl invalid_argument
    end.
Proof.
  intros Hk Hv. unfold p2p_config_parse. rewrite p2p_scan_app.
  destruct (p2p_scan l1 _ _ _ _) as [x|[[[bar rbar] remap] exp_bar]]; [reflexivity|].
  assert (E : p2p_scan (val :: l2) bar rbar remap exp_bar = inl invalid_argument).
  { simpl in Hk. destruct Hk as [<-|[<-|[<-|[<-|[]]]]];
      destruct Hv as [->| ->]; reflexivity. }
  rewrite E. reflexivity.
Qed.

Lemma p2p_config_parse_ignores_other_entries_witness :
  p2p_config_parse (["bar:4"] ++ ["version:2"; "xx"] ++ ["exp_bar:4"])
  = p2p_config_parse (["bar:4"] ++ ["exp_bar:4"]).
Proof.
  apply (p2p_config_parse_ignores_other_entries ["bar:4"] ["version:2"; "xx"] ["exp_bar:4"]).
  repeat constructor.
Defined.

Lemma p2p_config_parse_missing_number_witness :
  p2p_config_parse (["bar:4"] ++ ["remap:"])
  = match p2p_scan ["bar:4"] (-1) (-1) (-1) (-1) with
    | inl x => inl x
    | inr _ => inl invalid_argument
    end.
Proof.
  apply (p2p_config_parse_missing_number ["bar:4"] "remap" "remap:" []).
  - simpl. tauto.
  - right. reflexivity.
Defined.

Lemma pretty_N_char_facts d :
  (d < 10)%N ->
  dec_digit (pretty_N_char d) = Some (Z.of_N d) /\
  is_space (pretty_N_char d) = false /\ is_sign (pretty_N_char d) = false.
Proof.
  intros Hd. rewrite <- (N2Nat.id d).
  assert (Hm : (N.to_nat d < 10)%nat) by lia. revert Hm.
  generalize (N.to_nat d) as m. intros m Hm.
  do 10 (destruct m as [|m]; [vm_compute; auto|]). lia.
Qed.

(** [pretty_N_go x s] starts with a digit, and the digit reader reads
    exactly [x] from it before reaching [s]. *)
Lemma pretty_N_go_digits x s acc n :
  (0 < x)%N ->
  (exists d t, (d < 10)%N /\ pretty_N_go x s = String (pretty_N_char d) t) /\
  exists k, (0 < k)%nat /\
    read_digits dec_digit 10 acc n (pretty_N_go x s)
    = read_digits dec_digit 10 (acc * 10 ^ Z.of_nat k + Z.of_N x) (n + k) s.
Proof.
  revert s acc n. induction (N.lt_wf_0 x) as [x _ IH]. intros s acc n Hx.
  rewrite pretty_N_go_step by exact Hx.
  pose proof (N.div_mod x 10 ltac:(lia)) as Hdm.
  assert (Hr : (x `mod` 10 < 10)%N) by (apply N.mod_lt; lia).
  destruct (pretty_N_char_facts _ Hr) as (Hdig & _ & _).
  destruct (N.eq_dec (x `div` 10) 0) as [Hq|Hq].
  - rewrite Hq, pretty_N_go_0. split; [exists (x `mod` 10)%N, s; auto|].
    exists 1%nat. split; [lia|]. simpl. rewrite Hdig. f_equal; lia.
  - destruct (IH (x `div` 10)%N (N.div_lt x 10 Hx eq_refl) (String (pretty_N_char (x `mod` 10)) s)
                acc n ltac:(lia)) as [Hfirst (k & Hk & E)].
    split; [exact Hfirst|]. exists (S k). split; [lia|]. rewrite E. simpl. rewrite Hdig.
    f_equal; [|lia]. rewrite Nat2Z.inj_succ, Z.pow_succ_r by lia. nia.
Qed.

Lemma stoll_digits (neg : bool) x :
  (0 < x)%N ->
  stoll ((if neg then "-" else EmptyString) ++ pretty_N_go x EmptyString)%string
  = let r := if neg then - Z.of_N x else Z.of_N x in
    if (r <? - 2 ^ 63) || (2 ^ 63 - 1 <? r) then inl out_of_range else inr r.
Proof.
  intros Hx.
  destruct (pretty_N_go_digits x EmptyString 0 0 Hx) as [(d & t & Hd & Et) (k & Hk & E)].
  destruct (pretty_N_char_facts d Hd) as (_ & Hsp & Hsg).
  assert (Hs : read_sign (skip_space ((if neg then "-" else EmptyString) ++ pretty_N_go x EmptyString)%string)
               = (neg, pretty_N_go x EmptyString)).
  { destruct neg; [reflexivity|]. rewrite Et.
    change ((EmptyString ++ String (pretty_N_char d) t)%string) with (String (pretty_N_char d) t).
    rewrite skip_space_stop by exact Hsp. apply read_sign_other. exact Hsg. }
  unfold stoll. rewrite Hs, E. simpl read_digits.
  replace (0 * 10 ^ Z.of_nat k + Z.of_N x) with (Z.of_N x) by lia.
  destruct k as [|k]; [lia|]. reflexivity.
Qed.

(** [std::stoll] reads back every [long long] that [pretty] prints. *)
Lemma stoll_pretty z : - 2 ^ 63 <= z <= 2 ^ 63 - 1 -> stoll (pretty z) = inr z.
Proof.
  intros Hz. destruct z as [|p|p]; [reflexivity| |].
  - change (pretty (Z.pos p)) with ((if false then "-" else EmptyString) ++ pretty (N.pos p))%string.
    unfold pretty, pretty_N. rewrite decide_False by discriminate.
    rewrite (stoll_digits false) by lia. simpl.
    destruct (Z.ltb_spec (Z.pos p) (- 2 ^ 63)); [lia|].
    destruct (Z.ltb_spec (2 ^ 63 - 1) (Z.pos p)); [lia|]. reflexivity.
  - change (pretty (Z.neg p)) with ((if true then "-" else EmptyString) ++ pretty (N.pos p))%string.
    unfold pretty, pretty_N. rewrite decide_False by discriminate.
    rewrite (stoll_digits true) by lia. simpl.
    destruct (Z.ltb_spec (- Z.pos p) (- 2 ^ 63)); [lia|].
    destruct (Z.ltb_spec (2 ^ 63 - 1) (- Z.pos p)); [lia|]. reflexivity.
Qed.

Lemma substring_0_length s : String.substring 0 (String.length s) s = s.
Proof. induction s as [|c s IH]; [reflexivity|]. simpl. rewrite IH. reflexivity. Qed.

Lemma index_colon key x :
  all_chars (fun c => negb (Ascii.eqb c ":"%char)) key = true ->
  String.index 0 ":" (key ++ ":" ++ x)%string = Some (String.length key).
Proof.
  induction key as [|c key IH]; intros H.
  { simpl. destruct (ascii_dec ":" ":") as [_|n]; [destruct x; reflexivity | congruence]. }
  simpl in H. apply andb_true_iff in H as [Hc H].
  assert (E : forall s, String.index 0 ":" (String c s)
                        = if String.prefix ":" (String c s) then Some 0%nat
                          else match String.index 0 ":" s with
                               | Some n => Some (S n) | None => None end) by reflexivity.
  change ((String c key ++ ":" ++ x)%string) with (String c (key ++ ":" ++ x)%string).
  rewrite E, IH by exact H.
  assert (P : forall s, String.prefix ":" (String c s)
                        = if ascii_dec ":" c then String.prefix EmptyString s else false)
    by reflexivity.
  rewrite P. destruct (ascii_dec ":" c) as [<-|]; [discriminate | reflexivity].
Qed.

Lemma substring_after_colon key x m :
  String.substring (S (String.length key)) m (key ++ ":" ++ x)%string = String.substring 0 m x.
Proof. induction key as [|c key IH]; [reflexivity|]. exact IH. Qed.

Lemma length_string_app s1 s2 :
  String.length (s1 ++ s2)%string = (String.length s1 + String.length s2)%nat.
Proof. induction s1 as [|c s1 IH]; simpl; [reflexivity|]. rewrite IH. reflexivity. Qed.

(** The number of an entry [key:x] is read from [x]. *)
Lemma entry_number key x :
  all_chars (fun c => negb (Ascii.eqb c ":"%char)) key = true ->
  let val := (key ++ ":" ++ x)%string in
  let pos := match String.index 0 ":" val with Some k => S k | None => O end in
  String.substring pos (String.length val - pos) val = x.
Proof.
  intros H. cbv zeta. rewrite index_colon by exact H.
  rewrite length_string_app, substring_after_colon.
  replace (_ - _)%nat with (String.length x); [apply substring_0_length|].
  rewrite length_string_app. simpl. lia.
Qed.

Lemma p2p_scan_rendered z l bar rbar remap exp_bar :
  - 2 ^ 63 <= z <= 2 ^ 63 - 1 ->
  p2p_scan (("bar:" ++ pretty z)%string :: l) bar rbar remap exp_bar
    = p2p_scan l z rbar remap exp_bar /\
  p2p_scan (("exp_bar:" ++ pretty z)%string :: l) bar rbar remap exp_bar
    = p2p_scan l bar rbar remap z /\
  p2p_scan (("rbar:" ++ pretty z)%string :: l) bar rbar remap exp_bar
    = p2p_scan l bar z remap exp_bar /\
  p2p_scan (("remap:" ++ pretty z)%string :: l) bar rbar remap exp_bar
    = p2p_scan l bar rbar z exp_bar.
Proof.
  intros Hz. pose proof (stoll_pretty z Hz) as Hs.
  pose proof (entry_number "bar" (pretty z) eq_refl) as E1.
  pose proof (entry_number "exp_bar" (pretty z) eq_refl) as E2.
  pose proof (entry_number "rbar" (pretty z) eq_refl) as E3.
  pose proof (entry_number "remap" (pretty z) eq_refl) as E4.
  cbv zeta in E1, E2, E3, E4.
  change (("bar" ++ ":" ++ pretty z)%string) with (("bar:" ++ pretty z)%string) in E1.
  change (("exp_bar" ++ ":" ++ pretty z)%string) with (("exp_bar:" ++ pretty z)%string) in E2.
  change (("rbar" ++ ":" ++ pretty z)%string) with (("rbar:" ++ pretty z)%string) in E3.
  change (("remap" ++ ":" ++ pretty z)%string) with (("remap:" ++ pretty z)%string) in E4.
  cbn [p2p_scan].
  rewrite E1, E2, E3, E4, Hs. rewrite !found_at_0_prefix by discriminate.
  repeat split; reflexivity.
Qed.

(** [p2p_config::parse] on the entries [bar:b], [exp_bar:e], [rbar:r] and
    [remap:m], each number a [long long] printed in decimal, does not throw;
    it reports [not_supported] exactly when [b = -1], [reboot] exactly when
    [b <> -1] and [r] is given and above [b], [error] exactly when [b <> -1],
    no reboot is due and [m] is positive and differs from [b], [enabled]
    exactly when [b <> -1], no reboot is due, the remapper is unset or
    equal to [b] and [b = e], and [disabled] in the remaining case. *)
Theorem p2p_config_parse_rendered b e r m :
  - 2 ^ 63 <= b <= 2 ^ 63 - 1 -> - 2 ^ 63 <= e <= 2 ^ 63 - 1 ->
  - 2 ^ 63 <= r <= 2 ^ 63 - 1 -> - 2 ^ 63 <= m <= 2 ^ 63 - 1 ->
  exists v msg,
    p2p_config_parse [("bar:" ++ pretty b)%string; ("exp_bar:" ++ pretty e)%string;
                      ("rbar:" ++ pretty r)%string; ("remap:" ++ pretty m)%string]
      = inr (v, msg) /\
    (v = p2p_not_supported <-> b = -1) /\
    (v = p2p_reboot <-> b <> -1 /\ r <> -1 /\ b < r) /\
    (v = p2p_error <-> b <> -1 /\ (r = -1 \/ r <= b) /\ 0 < m /\ m <> b) /\
    (v = p2p_enabled <-> b <> -1 /\ (r = -1 \/ r <= b) /\ (m <= 0 \/ m = b) /\ b = e) /\
    (v = p2p_disabled <-> b <> -1 /\ (r = -1 \/ r <= b) /\ (m <= 0 \/ m = b) /\ b <> e).
Proof.
  intros Hb He Hr Hm. unfold p2p_config_parse.
  rewrite (proj1 (p2p_scan_rendered b _ _ _ _ _ Hb)),
          (proj1 (proj2 (p2p_scan_rendered e _ _ _ _ _ He))),
          (proj1 (proj2 (proj2 (p2p_scan_rendered r _ _ _ _ _ Hr)))),
          (proj2 (proj2 (proj2 (p2p_scan_rendered m _ _ _ _ _ Hm)))).
  cbn [p2p_scan].
  destruct (Z.eqb_spec b (-1)), (Z.eqb_spec r (-1)), (Z.ltb_spec b r),
    (Z.ltb_spec 0 m), (Z.eqb_spec m b), (Z.eqb_spec b e); cbn [negb andb];
    eexists _, _; (split; [reflexivity|]); intuition (try discriminate; try lia).
Qed.

Lemma p2p_config_parse_rendered_witness :
  exists v msg,
    p2p_config_parse [("bar:" ++ pretty 4)%string; ("exp_bar:" ++ pretty 4)%string;
                      ("rbar:" ++ pretty 2)%string; ("remap:" ++ pretty (-1))%string]
      = inr (v, msg) /\
    (v = p2p_not_supported <-> 4 = -1) /\
    (v = p2p_reboot <-> 4 <> -1 /\ 2 <> -1 /\ 4 < 2) /\
    (v = p2p_error <-> 4 <> -1 /\ (2 = -1 \/ 2 <= 4) /\ 0 < -1 /\ -1 <> 4) /\
    (v = p2p_enabled <-> 4 <> -1 /\ (2 = -1 \/ 2 <= 4) /\ (-1 <= 0 \/ -1 = 4) /\ 4 = 4) /\
    (v = p2p_disabled <-> 4 <> -1 /\ (2 = -1 \/ 2 <= 4) /\ (-1 <= 0 \/ -1 = 4) /\ 4 <> 4).
Proof.
  apply (p2p_config_parse_rendered 4 4 2 (-1)); lia.
Defined.
